(** * Marine sensor network simulator (app.py): shallow embedding

    The script app.py is a single top-to-bottom computation: it seeds
    numpy's global generator, draws the node coordinates, optionally
    clusters the nodes around the first k of them, builds a greedy
    nearest-neighbour route from the base station, and computes per-node
    link costs together with three running totals.

    Modelling choices.
    - Python floats are modelled by the real numbers [R]; [math.dist] is
      the square root of the sum of squared coordinate differences and
      [round(x, n)] is rounding to n decimals, halves to even.
    - numpy's generator (MT19937) is not part of the repository; it is an
      interface [BitGenerator] whose only law is that a bounded draw lies
      in its half-open range.
    - Python exceptions are values of [outcome]; the [while] loop of
      [build_route] runs on fuel and is proved never to exhaust it.
    - The list objects handled by [build_route] live in a store indexed
      by locations, so that copying and in-place mutation are visible.
    - The streamlit widgets and the matplotlib drawing are not modelled;
      the widget values are the fields of [Config]. *)

From Stdlib Require Import Reals Lra Lia ZArith.
From stdpp Require Import base option list gmap.

(** ** Outcomes of Python computations *)

Inductive PyError : Type :=
| ValueError
| KeyError.

Inductive outcome (A : Type) : Type :=
| Ok (a : A)
| Raise (e : PyError)
| OutOfFuel.

Arguments Ok {A} a.
Arguments Raise {A} e.
Arguments OutOfFuel {A}.

#[export] Instance outcome_ret : MRet outcome := @Ok.

#[export] Instance outcome_bind : MBind outcome :=
  fun A B f m =>
    match m with
    | Ok a => f a
    | Raise e => Raise e
    | OutOfFuel => OutOfFuel
    end.

(** ** Numbers *)

Definition Point : Type := (Z * Z)%type.

(** [math.dist(a, b)] on two integer rows. *)
Definition distance (a b : Point) : R :=
  sqrt ((IZR a.1 - IZR b.1) * (IZR a.1 - IZR b.1)
        + (IZR a.2 - IZR b.2) * (IZR a.2 - IZR b.2)).

(** Nearest integer, halves going to the even neighbour. *)
Definition round_half_even (y : R) : Z :=
  let f := Zfloor y in
  let r := (y - IZR f)%R in
  if Rlt_dec r (1 / 2) then f
  else if Rlt_dec (1 / 2) r then (f + 1)%Z
  else if Z.even f then f else (f + 1)%Z.

(** [round(x, ndigits)] of a float, on the exact value.  Python rounds the
    double that stands for [x]; when the exact value lies on a decimal
    tie, that double may lie on either side of it, so the last digit can
    differ there.  Statements about rounded totals are therefore given
    as bounds of one unit in the last place. *)
Definition py_round (x : R) (ndigits : nat) : R :=
  (IZR (round_half_even (x * 10 ^ ndigits)) / 10 ^ ndigits)%R.

(** [min(l, key=key)] for a non-empty list [best :: l]: the running best
    is replaced only by a strictly smaller key. *)
Fixpoint py_min_by {A : Type} (key : A -> R) (best : A) (l : list A) : A :=
  match l with
  | [] => best
  | x :: l' =>
    if Rlt_dec (key x) (key best) then py_min_by key x l'
    else py_min_by key best l'
  end.

(** [np.argmin] scanning [l], whose first element has index [i]; [bi] and
    [bv] are the index and value of the best element seen so far. *)
Fixpoint argmin_from (bi : nat) (bv : R) (i : nat) (l : list R) : nat :=
  match l with
  | [] => bi
  | x :: l' =>
    if Rlt_dec x bv then argmin_from i x (S i) l'
    else argmin_from bi bv (S i) l'
  end.

(** [np.argmin(l)]: index of the first minimum; an empty sequence raises
    ValueError. *)
Definition np_argmin (l : list R) : outcome nat :=
  match l with
  | [] => Raise ValueError
  | x :: l' => Ok (argmin_from 0 x 1 l')
  end.

(** [l.remove(x)]: drops the first element equal to [x]; ValueError when
    there is none. *)
Fixpoint list_remove (x : Point) (l : list Point) : outcome (list Point) :=
  match l with
  | [] => Raise ValueError
  | y :: l' =>
    if decide (y = x) then Ok l'
    else l'' ← list_remove x l'; Ok (y :: l'')
  end.

(** ** numpy's random generator *)

Class BitGenerator : Type := {
  rng_state : Type;
  (** the state installed by [np.random.seed(s)] *)
  seed_state : Z -> rng_state;
  (** one bounded draw from [low, high) and the advanced state *)
  bounded_int : Z -> Z -> rng_state -> Z * rng_state;
  bounded_int_range :
    forall low high s,
      (low < high)%Z ->
      (low <= (bounded_int low high s).1 < high)%Z
}.

Section Simulator.

Context {gen : BitGenerator}.

(** [rows] rows of two bounded draws each, filled in row-major order. *)
Fixpoint draw_rows (low high : Z) (rows : nat) (g : rng_state)
  : list Point * rng_state :=
  match rows with
  | O => ([], g)
  | S rows' =>
    let '(x, g1) := bounded_int low high g in
    let '(y, g2) := bounded_int low high g1 in
    let '(rest, g3) := draw_rows low high rows' g2 in
    ((x, y) :: rest, g3)
  end.

(** [np.random.randint(low, high, (rows, 2))].  An empty shape returns
    the empty array before the bounds are looked at; a negative dimension
    and an empty range both raise ValueError. *)
Definition np_randint (low high rows : Z) (g : rng_state)
  : outcome (list Point * rng_state) :=
  if decide (rows = 0)%Z then Ok ([], g)
  else if decide (high <= low)%Z then Raise ValueError
  else if decide (rows < 0)%Z then Raise ValueError
  else Ok (draw_rows low high (Z.to_nat rows) g).

(** ** Widget values *)

Inductive NetworkType : Type :=
| RF_Telemetry
| Cabled_Fiber
| Acoustic.

Record Config : Type := {
  num_nodes : Z;
  area_size : Z;
  network_type : NetworkType;
  enable_cluster : bool;
  (** the SOFAR checkbox, which is only shown for Acoustic *)
  sofar_checkbox : bool
}.

Definition enable_sofar (cfg : Config) : bool :=
  match network_type cfg with
  | Acoustic => sofar_checkbox cfg
  | _ => false
  end.

Definition base_station (cfg : Config) : Point :=
  ((area_size cfg / 2)%Z, 20%Z).

(** ** Clustering *)

(** [for i in range(k): clusters[i] = []] *)
Definition init_clusters (k : Z) : gmap nat (list Point) :=
  foldl (fun m i => <[i := []]> m) ∅ (seq 0 (Z.to_nat k)).

(** One iteration of [for node in nodes]. *)
Definition assign_node (cluster_centers : list Point)
    (clusters : gmap nat (list Point)) (node : Point)
  : outcome (gmap nat (list Point)) :=
  let dists := distance node <$> cluster_centers in
  cid ← np_argmin dists;
  match clusters !! cid with
  | Some members => Ok (<[cid := members ++ [node]]> clusters)
  | None => Raise KeyError
  end.

Fixpoint assign_nodes (cluster_centers : list Point)
    (clusters : gmap nat (list Point)) (nodes : list Point)
  : outcome (gmap nat (list Point)) :=
  match nodes with
  | [] => Ok clusters
  | node :: rest =>
    clusters' ← assign_node cluster_centers clusters node;
    assign_nodes cluster_centers clusters' rest
  end.

(** The body of [if enable_cluster:]; returns [cluster_centers] and
    [clusters]. *)
Definition clustering (num_nodes : Z) (nodes : list Point)
  : outcome (list Point * gmap nat (list Point)) :=
  let k := Z.max 2 (num_nodes / 4) in
  let cluster_centers := take (Z.to_nat k) nodes in
  clusters ← assign_nodes cluster_centers (init_clusters k) nodes;
  Ok (cluster_centers, clusters).

(** ** Routing *)

Definition loc : Type := nat.

(** The store of list objects. *)
Definition store_alloc (h : gmap loc (list Point)) (v : list Point)
  : loc * gmap loc (list Point) :=
  let l := fresh (dom h) in (l, <[l := v]> h).

(** The [while remaining:] loop.  [l_rem] and [l_route] are the locations
    of [remaining] and [route]. *)
Fixpoint route_loop (fuel : nat) (l_rem l_route : loc) (current : Point)
    (h : gmap loc (list Point)) : outcome (gmap loc (list Point)) :=
  match h !!! l_rem with
  | [] => Ok h
  | p0 :: rest =>
    match fuel with
    | O => OutOfFuel
    | S fuel' =>
      let nearest := py_min_by (distance current) p0 rest in
      let h1 := <[l_route := (h !!! l_route) ++ [nearest]]> h in
      remaining' ← list_remove nearest (h1 !!! l_rem);
      let h2 := <[l_rem := remaining']> h1 in
      route_loop fuel' l_rem l_route nearest h2
    end
  end.

(** [build_route(nodes, start)], where [nodes] is the array stored at
    [l_nodes].  Returns the route array and the final store. *)
Definition build_route (l_nodes : loc) (start : Point)
    (h : gmap loc (list Point))
  : outcome (list Point * gmap loc (list Point)) :=
  let '(l_rem, h1) := store_alloc h (h !!! l_nodes) in
  let '(l_route, h2) := store_alloc h1 [start] in
  h3 ← route_loop (length (h !!! l_nodes)) l_rem l_route start h2;
  Ok (h3 !!! l_route, h3).

(** ** Communication model *)

Record CommState : Type := {
  results : list (R * R * R);
  total_energy : R;
  total_delay : R;
  sync_overhead : R
}.

Definition comm_init : CommState :=
  {| results := []; total_energy := 0; total_delay := 0;
     sync_overhead := 0 |}.

(** Speed, energy, sync and the value of [d] after the transport
    branch. *)
Definition transport (nt : NetworkType) (sofar : bool) (d : R)
  : R * R * R * R :=
  match nt with
  | RF_Telemetry => (3e8, d * 0.06, 0.00002, d)%R
  | Cabled_Fiber => (2e8, d * 0.015, 0.00001, d)%R
  | Acoustic => (1500, d * 0.12, 0.002, if sofar then d * 0.8 else d)%R
  end.

(** One iteration of the [for node in nodes] cost loop.  The three
    accumulators add in the order of the script; being real sums they do
    not carry the rounding of float addition, so they are only compared
    with sums taken in the same order. *)
Definition comm_step (nt : NetworkType) (sofar : bool) (base : Point)
    (st : CommState) (node : Point) : CommState :=
  let d := distance node base in
  let '(speed, energy, sync, d) := transport nt sofar d in
  let delay := (d / speed)%R in
  {| results :=
       results st ++ [(py_round d 2, py_round delay 6, py_round energy 3)];
     total_energy := (total_energy st + energy)%R;
     total_delay := (total_delay st + delay)%R;
     sync_overhead := (sync_overhead st + sync)%R |}.

(** ** The script *)

Record Run : Type := {
  nodes : list Point;
  cluster_centers : list Point;
  clusters : gmap nat (list Point);
  route : list Point;
  comm : CommState
}.

Definition nodes_loc : loc := 0%nat.

(** One run of the script from the global generator state [g]. *)
Definition app (cfg : Config) (g : rng_state) : outcome (Run * rng_state) :=
  let g0 := seed_state 3 in
  '(generated, g1) ←
    np_randint 50 (area_size cfg - 50) (num_nodes cfg) g0;
  let h0 : gmap loc (list Point) := {[ nodes_loc := generated ]} in
  '(centers, cl) ←
    (if enable_cluster cfg
     then clustering (num_nodes cfg) (h0 !!! nodes_loc)
     else Ok ([], ∅));
  '(rt, h1) ← build_route nodes_loc (base_station cfg) h0;
  let st :=
    foldl (comm_step (network_type cfg) (enable_sofar cfg)
             (base_station cfg))
          comm_init (h1 !!! nodes_loc) in
  Ok ({| nodes := h1 !!! nodes_loc; cluster_centers := centers;
         clusters := cl; route := rt; comm := st |}, g1).

(** The nodes drawn for a configuration: the generator is re-seeded with
    3 at the start of every run. *)
Definition generated (cfg : Config) : list Point * rng_state :=
  draw_rows 50 (area_size cfg - 50) (Z.to_nat (num_nodes cfg)) (seed_state 3).

(** The node coordinates one run produces. *)
Definition run_nodes (cfg : Config) (g : rng_state) : outcome (list Point) :=
  r ← app cfg g; Ok (nodes r.1).

(** The three figures as displayed under the table. *)
Definition reported_total_delay (r : Run) : R :=
  py_round (total_delay (comm r)) 6.

Definition reported_total_energy (r : Run) : R :=
  py_round (total_energy (comm r)) 3.

Definition reported_sync_overhead (r : Run) : R :=
  py_round (sync_overhead (comm r)) 6.

End Simulator.

(** ** Vocabulary of the specification *)

(** A configuration the specification calls valid. *)
Definition valid (cfg : Config) : Prop :=
  (1 <= num_nodes cfg)%Z /\ (100 < area_size cfg)%Z.

(** Left-to-right sum, as accumulated by [total += x]. *)
Definition Rsum (l : list R) : R := foldl Rplus 0%R l.

(** The distance, delay and energy fields of a result record. *)
Definition rec_distance (rec : R * R * R) : R := rec.1.1.
Definition rec_delay (rec : R * R * R) : R := rec.1.2.
Definition rec_energy (rec : R * R * R) : R := rec.2.

(** The fixed per-transport synchronisation constant. *)
Definition sync_constant (nt : NetworkType) : R :=
  match nt with
  | RF_Telemetry => 0.00002
  | Cabled_Fiber => 0.00001
  | Acoustic => 0.002
  end.

(** The unrounded delay and energy of the link from [node] to [base]. *)
Definition link_delay (nt : NetworkType) (sofar : bool) (base node : Point)
  : R :=
  let '(speed, _, _, d) := transport nt sofar (distance node base) in
  (d / speed)%R.

Definition link_energy (nt : NetworkType) (sofar : bool) (base node : Point)
  : R :=
  let '(_, energy, _, _) := transport nt sofar (distance node base) in
  energy.

(** The record appended to [results] for one node. *)
Definition link_record (nt : NetworkType) (sofar : bool) (base node : Point)
  : R * R * R :=
  let '(speed, energy, _, d) := transport nt sofar (distance node base) in
  (py_round d 2, py_round (d / speed) 6, py_round energy 3).

(** Greedy nearest-neighbour order, in the words of the specification:
    from [cur], the next point [p] of the tour is a remaining point at
    minimum distance, every remaining point listed before it being
    strictly farther; it is removed and the walk goes on from [p]. *)
Inductive greedy_order : Point -> list Point -> list Point -> Prop :=
| greedy_done cur : greedy_order cur [] []
| greedy_next cur l1 p l2 tour :
    (forall q, q ∈ l1 -> (distance cur p < distance cur q)%R) ->
    (forall q, q ∈ l2 -> (distance cur p <= distance cur q)%R) ->
    greedy_order p (l1 ++ l2) tour ->
    greedy_order cur (l1 ++ p :: l2) (p :: tour).

(** The cluster index computed for [node] by the assignment loop. *)
Definition nearest_center (centers : list Point) (node : Point) : nat :=
  match distance node <$> centers with
  | [] => 0%nat
  | x :: l => argmin_from 0 x 1 l
  end.

(** The index of the center nearest to [node], lowest index on ties, in
    the words of the specification. *)
Definition nearest_center_of (centers : list Point) (node : Point)
    (c : nat) : Prop :=
  exists center,
    centers !! c = Some center /\
    (forall j cj, centers !! j = Some cj ->
       (distance node center <= distance node cj)%R) /\
    (forall j cj, (j < c)%nat -> centers !! j = Some cj ->
       (distance node center < distance node cj)%R).

(** A generator whose stream after seeding is read off a script; each
    draw reduces the next scripted value into the requested range. *)
Definition scripted_draw (low high : Z) (s : list Z) : Z * list Z :=
  match s with
  | [] => (low, [])
  | v :: s' => ((low + v `mod` (high - low))%Z, s')
  end.

Lemma scripted_draw_range low high s :
  (low < high)%Z -> (low <= (scripted_draw low high s).1 < high)%Z.
Proof.
  intros Hlt. destruct s as [|v s']; simpl; [lia|].
  pose proof (Z.mod_pos_bound v (high - low)). lia.
Qed.

Definition scripted_gen (script : list Z) : BitGenerator :=
  {| rng_state := list Z;
     seed_state := fun _ => script;
     bounded_int := scripted_draw;
     bounded_int_range := scripted_draw_range |}.

(** The bounded draws that numpy's MT19937 makes after [seed(3)] for the
    range [50, 1150), less the offset 50.  At area size 1200 the first
    nodes are (1002,1018), (306,839), (1071,709) and (925,1067); the
    base station is (600,20). *)
Definition demo_script : list Z :=
  [952; 968; 256; 789; 1021; 659; 875; 1017; 917; 480;
   605; 398; 337; 662; 834; 258; 641; 858; 872; 622]%Z.

Definition demo_gen : BitGenerator := scripted_gen demo_script.

Definition demo_config (n : Z) (nt : NetworkType) (cluster sofar : bool)
  : Config :=
  {| num_nodes := n; area_size := 1200; network_type := nt;
     enable_cluster := cluster; sofar_checkbox := sofar |}.

(** ** Drawing and further vocabulary *)

(** The segments drawn by the cluster part of the plot,
    [for i, c in enumerate(cluster_centers): for n in clusters[i]: plot c--n],
    from index [i] on; a missing key raises KeyError. *)
Fixpoint cluster_edges (i : nat) (centers : list Point)
    (clusters : gmap nat (list Point)) : outcome (list (Point * Point)) :=
  match centers with
  | [] => Ok []
  | c :: rest =>
    match clusters !! i with
    | None => Raise KeyError
    | Some members =>
      edges ← cluster_edges (S i) rest clusters;
      Ok (((fun n => (c, n)) <$> members) ++ edges)
    end
  end.

(** The points handed to the three scatter and line calls of the plot
    (nodes, base station, route); the axes run from 0 to [area_size]. *)
Definition plotted_points (cfg : Config) (r : Run) : list Point :=
  nodes r ++ [base_station cfg] ++ route r.

Definition within_axes (cfg : Config) (p : Point) : Prop :=
  (0 <= p.1 <= area_size cfg)%Z /\ (0 <= p.2 <= area_size cfg)%Z.


(** The same widget values with another transport selection. *)
Definition with_network (nt : NetworkType) (sofar : bool) (cfg : Config)
  : Config :=
  {| num_nodes := num_nodes cfg; area_size := area_size cfg;
     network_type := nt; enable_cluster := enable_cluster cfg;
     sofar_checkbox := sofar |}.

(** Every hop of a route goes to a point that is at least as close as
    every point visited later. *)
Fixpoint hop_minimal (rt : list Point) : Prop :=
  match rt with
  | x :: tl =>
    match tl with
    | y :: rest =>
      (forall q, q ∈ rest -> (distance x y <= distance x q)%R) /\
      hop_minimal tl
    | [] => True
    end
  | [] => True
  end.

(** ** Rounding *)

Lemma round_half_even_near (y : R) (z : Z) :
  (IZR z - 1 / 2 < y < IZR z + 1 / 2)%R -> round_half_even y = z.
Proof.
  intros [Hlo Hhi]. unfold round_half_even.
  destruct (Rlt_dec y (IZR z)) as [Hy|Hy].
  - assert (Hf : Zfloor y = (z - 1)%Z).
    { apply Zfloor_eq. rewrite minus_IZR. lra. }
    rewrite Hf, minus_IZR.
    destruct (Rlt_dec _ _) as [H1|H1]; [lra|].
    destruct (Rlt_dec _ _) as [H2|H2]; [lia|lra].
  - assert (Hf : Zfloor y = z) by (apply Zfloor_eq; lra).
    rewrite Hf.
    destruct (Rlt_dec _ _) as [H1|H1]; [reflexivity|lra].
Qed.

Lemma round_half_even_IZR (z : Z) : round_half_even (IZR z) = z.
Proof. apply round_half_even_near. lra. Qed.

Lemma pow10_pos (n : nat) : (0 < 10 ^ n)%R.
Proof. apply pow_lt. lra. Qed.

(** A value that is a whole number of 10^-n units is left unchanged. *)
Lemma py_round_exact (z : Z) (n : nat) :
  py_round (IZR z / 10 ^ n) n = (IZR z / 10 ^ n)%R.
Proof.
  unfold py_round. pose proof (pow10_pos n) as Hp.
  replace (IZR z / 10 ^ n * 10 ^ n)%R with (IZR z) by (field; lra).
  now rewrite round_half_even_IZR.
Qed.

(** A value within half a unit of [z] units of 10^-n rounds to them. *)
Lemma py_round_near (x : R) (z : Z) (n : nat) :
  (IZR z - 1 / 2 < x * 10 ^ n < IZR z + 1 / 2)%R ->
  py_round x n = (IZR z / 10 ^ n)%R.
Proof.
  intros H. unfold py_round. now rewrite (round_half_even_near _ z).
Qed.

(** ** Node generation *)

Section Generation.

Context {gen : BitGenerator}.

Lemma draw_rows_length low high rows g :
  length (draw_rows low high rows g).1 = rows.
Proof.
  revert g. induction rows as [|rows IH]; intros g; simpl; [reflexivity|].
  destruct (bounded_int low high g) as [x g1].
  destruct (bounded_int low high g1) as [y g2].
  specialize (IH g2). destruct (draw_rows low high rows g2) as [rest g3].
  simpl in *. now rewrite IH.
Qed.

Lemma draw_rows_range low high rows g :
  (low < high)%Z ->
  Forall (fun p : Point => (low <= p.1 < high)%Z /\ (low <= p.2 < high)%Z)
         (draw_rows low high rows g).1.
Proof.
  intros Hlt. revert g.
  induction rows as [|rows IH]; intros g; simpl; [constructor|].
  pose proof (bounded_int_range low high g Hlt) as Hx.
  destruct (bounded_int low high g) as [x g1].
  pose proof (bounded_int_range low high g1 Hlt) as Hy.
  destruct (bounded_int low high g1) as [y g2].
  specialize (IH g2). destruct (draw_rows low high rows g2) as [rest g3].
  simpl in *. constructor; [split; assumption|assumption].
Qed.

(** Generation succeeds exactly on a non-negative count that is zero or
    comes with a non-empty range. *)
Lemma np_randint_ok low high rows g :
  (0 <= rows)%Z -> (rows = 0 \/ low < high)%Z ->
  np_randint low high rows g = Ok (draw_rows low high (Z.to_nat rows) g).
Proof.
  intros H0 H1. unfold np_randint.
  destruct (decide (rows = 0)%Z) as [->|Hne]; [reflexivity|].
  destruct (decide (high <= low)%Z); [lia|].
  destruct (decide (rows < 0)%Z); [lia|reflexivity].
Qed.

Lemma np_randint_raise low high rows g :
  (rows < 0 \/ (rows <> 0 /\ high <= low))%Z ->
  np_randint low high rows g = Raise ValueError.
Proof.
  intros H. unfold np_randint.
  destruct (decide (rows = 0)%Z); [lia|].
  destruct (decide (high <= low)%Z); [reflexivity|].
  destruct (decide (rows < 0)%Z); [reflexivity|lia].
Qed.

End Generation.

(** ** Routing *)

(** [min] returns the first element of minimum key. *)
Lemma py_min_by_first_min {A : Type} (key : A -> R) (l : list A) (best : A) :
  exists l1 l2,
    best :: l = l1 ++ py_min_by key best l :: l2 /\
    (forall q, q ∈ l1 -> (key (py_min_by key best l) < key q)%R) /\
    (forall q, q ∈ l2 -> (key (py_min_by key best l) <= key q)%R).
Proof.
  revert best. induction l as [|x l IH]; intros best; simpl.
  - exists [], []. repeat split; intros q Hq; inversion Hq.
  - destruct (Rlt_dec (key x) (key best)) as [Hlt|Hge].
    + destruct (IH x) as (l1 & l2 & Heq & H1 & H2).
      exists (best :: l1), l2. split; [simpl; congruence|].
      split; [|exact H2].
      intros q Hq. apply elem_of_cons in Hq as [->|Hq]; [|now apply H1].
      destruct l1 as [|y l1]; simpl in Heq.
      * injection Heq as Hx _. now rewrite <- Hx.
      * injection Heq as Hx _. subst y.
        specialize (H1 x (list_elem_of_here _ _)). lra.
    + destruct (IH best) as (l1 & l2 & Heq & H1 & H2).
      destruct l1 as [|y l1]; simpl in Heq.
      * injection Heq as Hb Hl. exists [], (x :: l).
        split; [simpl; congruence|].
        split; [intros q Hq; inversion Hq|].
        intros q Hq. apply elem_of_cons in Hq as [->|Hq].
        -- rewrite <- Hb. lra.
        -- apply H2. rewrite <- Hl. exact Hq.
      * injection Heq as Hb Hl. subst y.
        exists (best :: x :: l1), l2.
        split; [simpl; congruence|].
        split; [|exact H2].
        intros q Hq. apply elem_of_cons in Hq as [->|Hq];
          [apply H1; left|].
        apply elem_of_cons in Hq as [->|Hq].
        -- specialize (H1 best (list_elem_of_here _ _)). lra.
        -- apply H1. now right.
Qed.

Lemma list_remove_first (x : Point) (l1 l2 : list Point) :
  x ∉ l1 -> list_remove x (l1 ++ x :: l2) = Ok (l1 ++ l2).
Proof.
  induction l1 as [|y l1 IH]; intros Hnin; simpl.
  - destruct (decide (x = x)); [reflexivity|congruence].
  - apply not_elem_of_cons in Hnin as [Hne Hnin].
    destruct (decide (y = x)); [congruence|].
    now rewrite (IH Hnin).
Qed.

Lemma greedy_order_perm cur rem tour :
  greedy_order cur rem tour -> Permutation rem tour.
Proof.
  induction 1 as [|cur l1 p l2 tour _ _ _ IH]; [constructor|].
  rewrite <- IH. symmetry. apply Permutation_middle.
Qed.

Lemma greedy_order_inv cur rem tour :
  greedy_order cur rem tour ->
  (rem = [] /\ tour = []) \/
  exists l1 p l2 tour',
    rem = l1 ++ p :: l2 /\ tour = p :: tour' /\
    (forall q, q ∈ l1 -> (distance cur p < distance cur q)%R) /\
    (forall q, q ∈ l2 -> (distance cur p <= distance cur q)%R) /\
    greedy_order p (l1 ++ l2) tour'.
Proof.
  destruct 1 as [|cur l1 p l2 tour Hlt Hle Hrec]; [now left|].
  right. exists l1, p, l2, tour. auto.
Qed.

(** A list has at most one first element of minimum key. *)
Lemma first_min_split_unique {A : Type} (key : A -> R)
    (l1 l2 l1' l2' : list A) (p p' : A) :
  l1 ++ p :: l2 = l1' ++ p' :: l2' ->
  (forall q, q ∈ l1 -> (key p < key q)%R) ->
  (forall q, q ∈ l2 -> (key p <= key q)%R) ->
  (forall q, q ∈ l1' -> (key p' < key q)%R) ->
  (forall q, q ∈ l2' -> (key p' <= key q)%R) ->
  l1 = l1' /\ p = p' /\ l2 = l2'.
Proof.
  revert l1'. induction l1 as [|a l1 IH]; intros l1' Heq Hlt Hle Hlt' Hle'.
  - destruct l1' as [|b l1']; simpl in Heq.
    + injection Heq as -> ->. auto.
    + injection Heq as -> Heq.
      assert (Hin : p' ∈ l2) by (rewrite Heq; apply elem_of_app; right; left).
      specialize (Hle p' Hin).
      specialize (Hlt' b (list_elem_of_here _ _)). lra.
  - destruct l1' as [|b l1']; simpl in Heq.
    + injection Heq as -> Heq.
      assert (Hin : p ∈ l2') by (rewrite <- Heq; apply elem_of_app; right; left).
      specialize (Hle' p Hin).
      specialize (Hlt p' (list_elem_of_here _ _)). lra.
    + injection Heq as -> Heq.
      destruct (IH l1' Heq
                   (fun q Hq => Hlt q (list_elem_of_further _ _ _ Hq)) Hle
                   (fun q Hq => Hlt' q (list_elem_of_further _ _ _ Hq)) Hle')
        as (-> & -> & ->).
      auto.
Qed.

(** The specification's walk determines the tour. *)
Lemma greedy_order_unique cur rem tour1 tour2 :
  greedy_order cur rem tour1 -> greedy_order cur rem tour2 -> tour1 = tour2.
Proof.
  intros H1. revert tour2.
  induction H1 as [|cur l1 p l2 tour Hlt Hle _ IH]; intros tour2 H2.
  - apply greedy_order_inv in H2
      as [[_ ->]|(l1' & p' & l2' & tour' & Heq & _)]; [reflexivity|].
    now destruct l1'.
  - apply greedy_order_inv in H2
      as [[Heq _]|(l1' & p' & l2' & tour' & Heq & -> & Hlt' & Hle' & Hrec)].
    { now destruct l1. }
    destruct (first_min_split_unique (distance cur) _ _ _ _ _ _
                Heq Hlt Hle Hlt' Hle') as (-> & -> & ->).
    f_equal. now apply IH.
Qed.

Lemma route_loop_done fuel l_rem l_route cur (h : gmap loc (list Point)) :
  h !!! l_rem = [] -> route_loop fuel l_rem l_route cur h = Ok h.
Proof. intros Hrem. destruct fuel; simpl; now rewrite Hrem. Qed.

Lemma route_loop_step fuel l_rem l_route cur (h : gmap loc (list Point))
    p0 rest :
  h !!! l_rem = p0 :: rest ->
  route_loop (S fuel) l_rem l_route cur h =
  (let nearest := py_min_by (distance cur) p0 rest in
   let h1 := <[l_route := (h !!! l_route) ++ [nearest]]> h in
   remaining' ← list_remove nearest (h1 !!! l_rem);
   route_loop fuel l_rem l_route nearest (<[l_rem := remaining']> h1)).
Proof. intros Hrem. simpl. now rewrite Hrem. Qed.

(** The loop empties [remaining], appends a greedy tour to [route] and
    touches no other object of the store. *)
Lemma route_loop_spec fuel :
  forall (h : gmap loc (list Point)) l_rem l_route cur rem rt,
    l_rem <> l_route ->
    h !! l_rem = Some rem ->
    h !! l_route = Some rt ->
    (length rem <= fuel)%nat ->
    exists tour h',
      route_loop fuel l_rem l_route cur h = Ok h' /\
      greedy_order cur rem tour /\
      h' !! l_route = Some (rt ++ tour) /\
      h' !! l_rem = Some [] /\
      (forall l, l <> l_rem -> l <> l_route -> h' !! l = h !! l).
Proof.
  induction fuel as [|fuel IH]; intros h l_rem l_route cur rem rt Hne Hrem Hrt Hlen.
  - destruct rem as [|p0 rest]; [|simpl in Hlen; lia].
    exists [], h. rewrite route_loop_done by now apply lookup_total_correct.
    rewrite app_nil_r. repeat split; auto. constructor.
  - destruct rem as [|p0 rest].
    { exists [], h. rewrite route_loop_done by now apply lookup_total_correct.
      rewrite app_nil_r. repeat split; auto. constructor. }
    rewrite (route_loop_step _ _ _ _ _ p0 rest)
      by now apply lookup_total_correct.
    cbv zeta.
    destruct (py_min_by_first_min (distance cur) rest p0)
      as (l1 & l2 & Hsplit & Hlt & Hle).
    set (nearest := py_min_by (distance cur) p0 rest) in *.
    assert (Hnin : nearest ∉ l1).
    { intros Hin. specialize (Hlt _ Hin). lra. }
    rewrite (lookup_total_correct _ _ _ Hrt).
    rewrite lookup_total_insert_ne by auto.
    rewrite (lookup_total_correct _ _ _ Hrem), Hsplit.
    rewrite (list_remove_first _ _ _ Hnin). simpl.
    destruct (IH (<[l_rem := l1 ++ l2]> (<[l_route := rt ++ [nearest]]> h))
                 l_rem l_route nearest (l1 ++ l2) (rt ++ [nearest]))
      as (tour & h' & Hrun & Hgreedy & Hroute & Hempty & Hframe).
    + exact Hne.
    + apply lookup_insert_eq.
    + rewrite lookup_insert_ne by auto. apply lookup_insert_eq.
    + assert (Hl : length (p0 :: rest) = length (l1 ++ nearest :: l2))
        by now rewrite Hsplit.
      rewrite length_app in Hl |- *. simpl in Hl, Hlen. lia.
    + exists (nearest :: tour), h'. split; [exact Hrun|].
      split; [now constructor|].
      split; [now rewrite Hroute, <- app_assoc|].
      split; [exact Hempty|].
      intros l Hl1 Hl2. rewrite Hframe by auto.
      now rewrite !lookup_insert_ne by auto.
Qed.

Lemma fresh_not_allocated (h : gmap loc (list Point)) l :
  is_Some (h !! l) -> l <> fresh (dom h).
Proof.
  intros Hl ->. apply elem_of_dom in Hl. now apply is_fresh in Hl.
Qed.

(** [build_route] returns the start followed by a greedy tour of the
    array at [l_nodes], and leaves every object that was already in the
    store as it was. *)
Lemma build_route_spec (h : gmap loc (list Point)) l_nodes start ns :
  h !! l_nodes = Some ns ->
  exists tour h',
    build_route l_nodes start h = Ok (start :: tour, h') /\
    greedy_order start ns tour /\
    (forall l, is_Some (h !! l) -> h' !! l = h !! l).
Proof.
  intros Hns. unfold build_route, store_alloc.
  rewrite (lookup_total_correct _ _ _ Hns).
  set (l_rem := fresh (dom h)).
  set (h1 := <[l_rem := ns]> h).
  set (l_route := fresh (dom h1)).
  set (h2 := <[l_route := [start]]> h1).
  assert (Hne : l_rem <> l_route).
  { apply fresh_not_allocated. unfold h1. rewrite lookup_insert_eq. eauto. }
  destruct (route_loop_spec (length ns) h2 l_rem l_route start ns [start])
    as (tour & h' & Hrun & Hgreedy & Hroute & _ & Hframe).
  - exact Hne.
  - unfold h2. rewrite lookup_insert_ne by auto. apply lookup_insert_eq.
  - apply lookup_insert_eq.
  - lia.
  - exists tour, h'. rewrite Hrun. simpl.
    rewrite (lookup_total_correct _ _ _ Hroute). simpl.
    split; [reflexivity|]. split; [exact Hgreedy|].
    intros l Hl.
    assert (Hl1 : l <> l_rem) by now apply fresh_not_allocated.
    assert (Hl2 : l <> l_route).
    { apply fresh_not_allocated. unfold h1.
      now rewrite lookup_insert_ne by auto. }
    rewrite Hframe by auto. unfold h2, h1.
    now rewrite !lookup_insert_ne by auto.
Qed.

(** ** Clustering *)

(** [argmin_from] keeps the best so far unless a strictly smaller value
    follows, and then returns the first position of the minimum. *)
Lemma argmin_from_spec (l : list R) :
  forall bi bv i,
    (argmin_from bi bv i l = bi /\
     forall j w, l !! j = Some w -> (bv <= w)%R) \/
    (exists j v,
       argmin_from bi bv i l = (i + j)%nat /\ l !! j = Some v /\
       (v < bv)%R /\
       (forall j' w, l !! j' = Some w -> (v <= w)%R) /\
       (forall j' w, (j' < j)%nat -> l !! j' = Some w -> (v < w)%R)).
Proof.
  induction l as [|x l IH]; intros bi bv i; simpl.
  - left. split; [reflexivity|]. intros j w Hj. now destruct j.
  - destruct (Rlt_dec x bv) as [Hlt|Hge].
    + destruct (IH i x (S i)) as [[Hr Hmin]|(j & v & Hr & Hj & Hv & Hmin & Hfst)].
      * right. exists 0%nat, x. rewrite Hr. split; [lia|].
        split; [reflexivity|]. split; [exact Hlt|]. split.
        -- intros [|j'] w Hw; simpl in Hw; [injection Hw as <-; lra|eauto].
        -- intros j' w Hj'. lia.
      * right. exists (S j), v. rewrite Hr. split; [lia|].
        split; [exact Hj|]. split; [lra|]. split.
        -- intros [|j'] w Hw; simpl in Hw; [injection Hw as <-; lra|eauto].
        -- intros [|j'] w Hj' Hw; simpl in Hw;
             [injection Hw as <-; lra|apply (Hfst j'); [lia|exact Hw]].
    + destruct (IH bi bv (S i)) as [[Hr Hmin]|(j & v & Hr & Hj & Hv & Hmin & Hfst)].
      * left. split; [exact Hr|].
        intros [|j'] w Hw; simpl in Hw; [injection Hw as <-; lra|eauto].
      * right. exists (S j), v. rewrite Hr. split; [lia|].
        split; [exact Hj|]. split; [exact Hv|]. split.
        -- intros [|j'] w Hw; simpl in Hw; [injection Hw as <-; lra|eauto].
        -- intros [|j'] w Hj' Hw; simpl in Hw;
             [injection Hw as <-; lra|apply (Hfst j'); [lia|exact Hw]].
Qed.

(** On a non-empty list of centers the assignment index is the nearest
    center, lowest index on ties. *)
Lemma nearest_center_spec (centers : list Point) (node : Point) :
  centers <> [] -> nearest_center_of centers node (nearest_center centers node).
Proof.
  intros Hne. destruct centers as [|c0 cs]; [congruence|].
  unfold nearest_center, nearest_center_of. rewrite fmap_cons.
  destruct (argmin_from_spec (distance node <$> cs) 0%nat (distance node c0) 1%nat)
    as [[Hr Hmin]|(j & v & Hr & Hj & Hv & Hmin & Hfst)]; rewrite Hr.
  - exists c0. split; [reflexivity|]. split; [|intros j cj Hj; lia].
    intros [|j] cj Hj; simpl in Hj; [injection Hj as <-; lra|].
    apply (Hmin j). now rewrite list_lookup_fmap, Hj.
  - rewrite list_lookup_fmap in Hj.
    destruct (cs !! j) as [cj|] eqn:Hcj; [|discriminate].
    simpl in Hj. injection Hj as <-.
    exists cj. split; [exact Hcj|]. split.
    + intros [|j'] cj' Hj'; simpl in Hj'; [injection Hj' as <-; lra|].
      apply (Hmin j'). now rewrite list_lookup_fmap, Hj'.
    + intros [|j'] cj' Hlt Hj'; simpl in Hj'; [injection Hj' as <-; lra|].
      apply (Hfst j'); [lia|]. now rewrite list_lookup_fmap, Hj'.
Qed.

Lemma nearest_center_lt (centers : list Point) (node : Point) :
  centers <> [] -> (nearest_center centers node < length centers)%nat.
Proof.
  intros Hne. destruct (nearest_center_spec centers node Hne) as (c & Hc & _).
  now apply lookup_lt_Some in Hc.
Qed.

Lemma np_argmin_nearest (centers : list Point) (node : Point) :
  centers <> [] ->
  np_argmin (distance node <$> centers) = Ok (nearest_center centers node).
Proof. intros Hne. now destruct centers. Qed.

Lemma foldl_insert_nil_lookup (l : list nat) (m : gmap nat (list Point)) c :
  foldl (fun m i => <[i := []]> m) m l !! c =
  if decide (c ∈ l) then Some [] else m !! c.
Proof.
  revert m. induction l as [|i l IH]; intros m; simpl.
  - destruct (decide (c ∈ [])) as [Hin|_]; [inversion Hin|reflexivity].
  - rewrite IH.
    destruct (decide (c ∈ l)) as [Hin|Hnin].
    + rewrite decide_True by now right. reflexivity.
    + destruct (decide (c = i)) as [->|Hne].
      * rewrite decide_True by now left. apply lookup_insert_eq.
      * rewrite decide_False by (rewrite elem_of_cons; tauto).
        now apply lookup_insert_ne.
Qed.

Lemma init_clusters_lookup (k : Z) (c : nat) :
  init_clusters k !! c =
  if decide (c < Z.to_nat k)%nat then Some [] else None.
Proof.
  unfold init_clusters. rewrite foldl_insert_nil_lookup.
  destruct (decide (c < Z.to_nat k)%nat) as [Hlt|Hge].
  - rewrite decide_True; [reflexivity|]. apply elem_of_seq. lia.
  - rewrite decide_False; [apply lookup_empty|]. rewrite elem_of_seq. lia.
Qed.

(** The assignment loop appends to every cluster, in node order, the
    nodes whose nearest center it is. *)
Lemma assign_nodes_spec (centers : list Point) (ns : list Point) :
  forall cl : gmap nat (list Point),
    (ns <> [] -> centers <> []) ->
    (forall c, (c < length centers)%nat -> is_Some (cl !! c)) ->
    exists cl',
      assign_nodes centers cl ns = Ok cl' /\
      forall c,
        cl' !! c =
        (fun ms => ms ++ filter (fun p => nearest_center centers p = c) ns)
          <$> cl !! c.
Proof.
  induction ns as [|node rest IH]; intros cl Hne Hdom; simpl.
  - exists cl. split; [reflexivity|]. intros c.
    destruct (cl !! c); simpl; [now rewrite app_nil_r|reflexivity].
  - assert (Hc : centers <> []) by now apply Hne.
    unfold assign_node. rewrite (np_argmin_nearest _ _ Hc). simpl.
    destruct (Hdom _ (nearest_center_lt centers node Hc)) as [ms Hms].
    rewrite Hms.
    destruct (IH (<[nearest_center centers node := ms ++ [node]]> cl))
      as (cl' & Hrun & Hcl').
    + intros _. exact Hc.
    + intros c Hlt. rewrite lookup_insert.
      destruct (decide _); [eauto|now apply Hdom].
    + exists cl'. split; [exact Hrun|]. intros c. rewrite Hcl'.
      destruct (decide (nearest_center centers node = c)) as [<-|Hneq].
      * rewrite lookup_insert_eq, Hms. simpl.
        rewrite filter_cons_True by reflexivity.
        now rewrite <- app_assoc.
      * rewrite lookup_insert_ne by exact Hneq.
        now rewrite filter_cons_False by exact Hneq.
Qed.

(** The clustering block never raises; cluster [c] below k holds, in
    node order, the nodes assigned to [c]. *)
Lemma clustering_spec (n : Z) (ns : list Point) :
  exists cl,
    clustering n ns = Ok (take (Z.to_nat (Z.max 2 (n / 4))) ns, cl) /\
    forall c,
      cl !! c =
      if decide (c < Z.to_nat (Z.max 2 (n / 4)))%nat
      then Some (filter (fun p =>
                   nearest_center (take (Z.to_nat (Z.max 2 (n / 4))) ns) p = c)
                   ns)
      else None.
Proof.
  unfold clustering.
  set (k := Z.max 2 (n / 4)). set (centers := take (Z.to_nat k) ns).
  destruct (assign_nodes_spec centers ns (init_clusters k))
    as (cl & Hrun & Hcl).
  - intros Hne. unfold centers. destruct ns as [|p ns']; [congruence|].
    assert (Hk : exists k', Z.to_nat k = S k') by (exists (Z.to_nat k - 1)%nat; lia).
    destruct Hk as [k' ->]. discriminate.
  - intros c Hlt. rewrite init_clusters_lookup.
    unfold centers in Hlt. rewrite length_take in Hlt.
    rewrite decide_True by lia. eauto.
  - exists cl. rewrite Hrun. split; [reflexivity|].
    intros c. rewrite Hcl, init_clusters_lookup.
    destruct (decide _); reflexivity.
Qed.

(** Sorting a list into buckets by a key loses and duplicates nothing. *)
Lemma buckets_cons (f : Point -> nat) (p : Point) (ns : list Point)
    (cs : list nat) :
  NoDup cs ->
  Permutation
    (concat ((fun c => filter (fun q => f q = c) (p :: ns)) <$> cs))
    ((if decide (f p ∈ cs) then [p] else [])
     ++ concat ((fun c => filter (fun q => f q = c) ns) <$> cs)).
Proof.
  induction cs as [|c cs IH]; intros Hnd.
  - destruct (decide (f p ∈ [])) as [Hin|_]; [inversion Hin|reflexivity].
  - apply NoDup_cons in Hnd as [Hc Hnd]. specialize (IH Hnd).
    rewrite !fmap_cons. simpl concat. rewrite IH.
    destruct (decide (f p = c)) as [Heq|Hneq].
    + subst c. rewrite filter_cons_True by reflexivity.
      destruct (decide (f p ∈ cs)) as [Hin|_]; [contradiction|].
      destruct (decide (f p ∈ f p :: cs)) as [_|Hnin];
        [reflexivity|exfalso; apply Hnin; left].
    + rewrite filter_cons_False by exact Hneq.
      destruct (decide (f p ∈ cs)) as [Hin|Hnin];
        destruct (decide (f p ∈ c :: cs)) as [Hin'|Hnin'].
      * apply Permutation_app_swap_app.
      * exfalso. apply Hnin'. now right.
      * apply elem_of_cons in Hin' as [?|?]; contradiction.
      * reflexivity.
Qed.

Lemma buckets_partition (f : Point -> nat) (k : nat) (ns : list Point) :
  (forall p, p ∈ ns -> (f p < k)%nat) ->
  Permutation (concat ((fun c => filter (fun q => f q = c) ns) <$> seq 0 k))
              ns.
Proof.
  induction ns as [|p ns IH]; intros Hlt.
  - induction (seq 0 k) as [|c cs IHc]; [reflexivity|].
    rewrite fmap_cons. simpl. exact IHc.
  - rewrite buckets_cons by apply NoDup_seq.
    rewrite decide_True by (apply elem_of_seq; specialize (Hlt p (list_elem_of_here _ _)); lia).
    simpl. constructor. apply IH.
    intros q Hq. apply Hlt. now right.
Qed.

(** ** Communication model *)

Lemma transport_sync nt sofar d :
  (transport nt sofar d).1.2 = sync_constant nt.
Proof. now destruct nt. Qed.

Lemma comm_step_fields nt sofar base st node :
  comm_step nt sofar base st node =
  {| results := results st ++ [link_record nt sofar base node];
     total_energy := (total_energy st + link_energy nt sofar base node)%R;
     total_delay := (total_delay st + link_delay nt sofar base node)%R;
     sync_overhead := (sync_overhead st + sync_constant nt)%R |}.
Proof.
  unfold comm_step, link_record, link_energy, link_delay.
  now destruct nt.
Qed.

Lemma Rsum_from (l : list R) (a : R) :
  foldl Rplus a l = (a + Rsum l)%R.
Proof.
  unfold Rsum. revert a. induction l as [|x l IH]; intros a; simpl.
  - lra.
  - rewrite IH, (IH (0 + x)%R). lra.
Qed.

Lemma Rsum_cons (x : R) (l : list R) : Rsum (x :: l) = (x + Rsum l)%R.
Proof. unfold Rsum at 1. simpl. rewrite Rsum_from. lra. Qed.

(** The cost loop from any state: one record per node, in node order,
    and the three accumulators. *)
Lemma comm_loop_spec nt sofar base (ns : list Point) :
  forall st,
    let st' := foldl (comm_step nt sofar base) st ns in
    results st' = results st ++ (link_record nt sofar base <$> ns) /\
    total_energy st' =
      (total_energy st + Rsum (link_energy nt sofar base <$> ns))%R /\
    total_delay st' =
      (total_delay st + Rsum (link_delay nt sofar base <$> ns))%R /\
    sync_overhead st' =
      (sync_overhead st + INR (length ns) * sync_constant nt)%R.
Proof.
  induction ns as [|node ns IH]; intros st.
  - simpl. unfold Rsum. simpl. rewrite app_nil_r. repeat split; lra.
  - cbv zeta. simpl foldl. destruct (IH (comm_step nt sofar base st node))
      as (Hres & Hen & Hde & Hsy).
    rewrite Hres, Hen, Hde, Hsy, comm_step_fields. simpl results.
    simpl total_energy. simpl total_delay. simpl sync_overhead.
    rewrite !fmap_cons, !Rsum_cons, <- app_assoc.
    change (length (node :: ns)) with (S (length ns)). rewrite S_INR.
    repeat split; lra.
Qed.

(** ** The script *)

Section Script.

Context {gen : BitGenerator}.

(** A run whose node generation goes through completes, and every part
    of its result is determined as follows. *)
Lemma app_spec (cfg : Config) (g : rng_state) :
  (0 <= num_nodes cfg)%Z ->
  (num_nodes cfg = 0 \/ 100 < area_size cfg)%Z ->
  exists centers cl tour,
    app cfg g =
      Ok ({| nodes := (generated cfg).1;
             cluster_centers := centers;
             clusters := cl;
             route := base_station cfg :: tour;
             comm := foldl (comm_step (network_type cfg) (enable_sofar cfg)
                              (base_station cfg))
                           comm_init (generated cfg).1 |},
          (generated cfg).2) /\
    greedy_order (base_station cfg) (generated cfg).1 tour /\
    (if enable_cluster cfg
     then clustering (num_nodes cfg) (generated cfg).1 = Ok (centers, cl)
     else centers = [] /\ cl = ∅).
Proof.
  intros Hn Harea. unfold app.
  rewrite np_randint_ok by lia. fold (generated cfg).
  destruct (generated cfg) as [ns g1]. simpl.
  rewrite lookup_total_singleton_eq.
  destruct (build_route_spec {[nodes_loc := ns]} nodes_loc
              (base_station cfg) ns) as (tour & h' & Hrun & Hgreedy & Hframe);
    [apply lookup_singleton_eq|].
  assert (Hns : h' !!! nodes_loc = ns).
  { apply lookup_total_correct. rewrite Hframe.
    - apply lookup_singleton_eq.
    - rewrite lookup_singleton_eq. eauto. }
  destruct (enable_cluster cfg).
  - destruct (clustering_spec (num_nodes cfg) ns) as (cl & Hcl & _).
    exists (take (Z.to_nat (Z.max 2 (num_nodes cfg / 4))) ns), cl, tour.
    rewrite Hcl. simpl. rewrite Hrun. simpl. rewrite Hns. auto.
  - exists [], ∅, tour. simpl. rewrite Hrun. simpl. rewrite Hns. auto.
Qed.

(** A run whose node generation raises stops there. *)
Lemma app_raise (cfg : Config) (g : rng_state) :
  (num_nodes cfg < 0 \/ (num_nodes cfg <> 0 /\ area_size cfg <= 100))%Z ->
  app cfg g = Raise ValueError.
Proof.
  intros H. unfold app. rewrite np_randint_raise by lia. reflexivity.
Qed.

End Script.

(** ** The demonstration run *)

(** A distance lies between two bounds whose squares enclose the squared
    distance. *)
Lemma distance_between (a b : Point) (n : Z) (lo hi : R) :
  ((a.1 - b.1) * (a.1 - b.1) + (a.2 - b.2) * (a.2 - b.2) = n)%Z ->
  (0 <= lo)%R ->
  (0 <= hi)%R ->
  (lo * lo < IZR n < hi * hi)%R ->
  (lo < distance a b < hi)%R.
Proof.
  intros Hn Hlo Hhi [H1 H2]. unfold distance.
  rewrite <- !minus_IZR, <- !mult_IZR, <- plus_IZR, Hn.
  assert (Hsq : (0 <= lo * lo)%R) by (apply Rmult_le_pos; exact Hlo).
  split.
  - rewrite <- (sqrt_square lo) at 1 by exact Hlo.
    apply sqrt_lt_1_alt. split; [exact Hsq|exact H1].
  - rewrite <- (sqrt_square hi) at 1 by exact Hhi.
    apply sqrt_lt_1_alt. split; [lra|exact H2].
Qed.

Lemma distance_sqr (a b : Point) :
  (distance a b * distance a b =
   IZR ((a.1 - b.1) * (a.1 - b.1) + (a.2 - b.2) * (a.2 - b.2)))%R.
Proof.
  unfold distance. rewrite plus_IZR, !mult_IZR, !minus_IZR.
  apply sqrt_sqrt.
  pose proof (Rle_0_sqr (IZR a.1 - IZR b.1)) as Hx.
  pose proof (Rle_0_sqr (IZR a.2 - IZR b.2)) as Hy.
  unfold Rsqr in Hx, Hy. lra.
Qed.

Lemma demo_generated (nt : NetworkType) (cluster sofar : bool) :
  (@generated demo_gen (demo_config 4 nt cluster sofar)).1 =
  [(1002, 1018); (306, 839); (1071, 709); (925, 1067)]%Z.
Proof. reflexivity. Qed.

(** The first node is 1075.92... m from the base station. *)
Lemma demo_distance_0 :
  (1075.9210 < distance (1002, 1018)%Z (600, 20)%Z < 1075.9228)%R.
Proof. apply (distance_between _ _ 1157608); [reflexivity|lra..]. Qed.

Lemma demo_distance_1 :
  (870 < distance (306, 839)%Z (600, 20)%Z < 871)%R.
Proof. apply (distance_between _ _ 757197); [reflexivity|lra..]. Qed.

Lemma demo_distance_2 :
  (834 < distance (1071, 709)%Z (600, 20)%Z < 835)%R.
Proof. apply (distance_between _ _ 696562); [reflexivity|lra..]. Qed.

Lemma demo_distance_3 :
  (1096 < distance (925, 1067)%Z (600, 20)%Z < 1097)%R.
Proof. apply (distance_between _ _ 1201834); [reflexivity|lra..]. Qed.

(** The result of the demonstration run, for any transport. *)
Lemma demo_run (nt : NetworkType) (sofar : bool) (g : list Z) :
  exists r g',
    @app demo_gen (demo_config 4 nt false sofar) g = Ok (r, g') /\
    nodes r = [(1002, 1018); (306, 839); (1071, 709); (925, 1067)]%Z /\
    comm r =
      foldl (comm_step nt (enable_sofar (demo_config 4 nt false sofar))
               (600, 20)%Z)
            comm_init [(1002, 1018); (306, 839); (1071, 709); (925, 1067)]%Z.
Proof.
  destruct (@app_spec demo_gen (demo_config 4 nt false sofar) g)
    as (centers & cl & tour & Hrun & _); [simpl; lia|simpl; lia|].
  rewrite Hrun, demo_generated. eauto.
Qed.

(** ** Stored distance (C1) *)

Lemma round_half_even_upper (y : R) : (IZR (round_half_even y) <= y + 1 / 2)%R.
Proof.
  unfold round_half_even. pose proof (Zfloor_bound y) as [Hlo Hhi].
  destruct (Rlt_dec _ _) as [H1|H1]; [lra|].
  destruct (Rlt_dec _ _) as [H2|H2]; [rewrite plus_IZR; lra|].
  destruct (Z.even _); [lra|rewrite plus_IZR; lra].
Qed.

Lemma py_round_upper (x : R) (n : nat) :
  (py_round x n <= x + 1 / 2 / 10 ^ n)%R.
Proof.
  unfold py_round. pose proof (pow10_pos n) as Hp.
  pose proof (round_half_even_upper (x * 10 ^ n)) as Hr.
  replace (x + 1 / 2 / 10 ^ n)%R with ((x * 10 ^ n + 1 / 2) / 10 ^ n)%R
    by (field; lra).
  apply Rmult_le_compat_r; [|exact Hr].
  left. now apply Rinv_0_lt_compat.
Qed.

(** A point at least 30 rows away from the base row is at least 30 away. *)
Lemma distance_lower (a b : Point) :
  (a.2 - b.2 >= 30)%Z -> (30 <= distance a b)%R.
Proof.
  intros Hdy. unfold distance.
  rewrite <- (sqrt_square 30) at 1 by lra.
  apply sqrt_le_1_alt.
  assert (Hy : (30 <= IZR a.2 - IZR b.2)%R).
  { rewrite <- minus_IZR. apply IZR_le. lia. }
  pose proof (Rle_0_sqr (IZR a.1 - IZR b.1)) as Hx. unfold Rsqr in Hx.
  assert (Hsq : (30 * 30 <= (IZR a.2 - IZR b.2) * (IZR a.2 - IZR b.2))%R)
    by (apply Rmult_le_compat; lra).
  lra.
Qed.

(** C1, at the demonstration run with ACOUSTIC transport and the SOFAR
    box ticked: the first node is more than 1075 m from the base station
    and the distance stored in its record is 860.74. *)
Lemma stored_distance_counterexample :
  exists r g' rec,
    @app demo_gen (demo_config 4 Acoustic false true) [] = Ok (r, g') /\
    nodes r !! 0%nat = Some (1002, 1018)%Z /\
    results (comm r) !! 0%nat = Some rec /\
    (1075 <
     distance (1002, 1018)%Z
       (base_station (demo_config 4 Acoustic false true)))%R /\
    rec_distance rec = 860.74%R /\
    rec_distance rec <>
      distance (1002, 1018)%Z
        (base_station (demo_config 4 Acoustic false true)).
Proof.
  destruct (demo_run Acoustic true []) as (r & g' & Hrun & Hnodes & Hcomm).
  exists r, g'. rewrite Hrun, Hnodes, Hcomm. simpl foldl.
  rewrite !comm_step_fields. simpl results.
  eexists. split; [reflexivity|]. split; [reflexivity|].
  split; [reflexivity|].
  change (base_station (demo_config 4 Acoustic false true)) with (600, 20)%Z.
  unfold link_record, rec_distance. simpl.
  pose proof demo_distance_0 as Hd.
  assert (Hround :
    py_round (distance (1002, 1018)%Z (600, 20)%Z * 0.8) 2 = 860.74%R).
  { rewrite (py_round_near _ 86074); simpl; lra. }
  rewrite Hround. repeat split; lra.
Qed.

(** C1 (amended): under ACOUSTIC transport with the SOFAR box ticked,
    the distance stored in every node's record is the SOFAR-adjusted
    distance, 0.8 times the Euclidean distance to the base station,
    rounded to two decimals; it is strictly below the full distance. *)
Theorem stored_distance_sofar {gen : BitGenerator} (cfg : Config)
    (g : rng_state) :
  valid cfg ->
  network_type cfg = Acoustic ->
  sofar_checkbox cfg = true ->
  exists r g',
    app cfg g = Ok (r, g') /\
    length (results (comm r)) = length (nodes r) /\
    forall i node,
      nodes r !! i = Some node ->
      exists rec,
        results (comm r) !! i = Some rec /\
        rec_distance rec =
          py_round (distance node (base_station cfg) * 0.8) 2 /\
        (rec_distance rec < distance node (base_station cfg))%R.
Proof.
  intros [Hn Harea] Hnt Hsofar.
  destruct (app_spec cfg g) as (centers & cl & tour & Hrun & _); [lia|lia|].
  eexists _, _. split; [exact Hrun|]. simpl.
  destruct (comm_loop_spec (network_type cfg) (enable_sofar cfg)
              (base_station cfg) (generated cfg).1 comm_init)
    as (Hres & _).
  rewrite Hres. simpl. split; [now rewrite length_fmap|].
  intros i node Hi. rewrite list_lookup_fmap, Hi. simpl.
  eexists. split; [reflexivity|].
  unfold link_record, rec_distance, enable_sofar.
  rewrite Hnt, Hsofar. simpl. split; [reflexivity|].
  assert (Hrange : (50 <= node.2)%Z).
  { pose proof (draw_rows_range 50 (area_size cfg - 50)
                  (Z.to_nat (num_nodes cfg)) (seed_state 3)) as Hall.
    rewrite Forall_forall in Hall.
    apply Hall; [lia|]. unfold generated in Hi.
    apply list_elem_of_lookup. eauto. }
  pose proof (distance_lower node (base_station cfg)) as Hd.
  simpl in Hd. specialize (Hd ltac:(lia)).
  pose proof (py_round_upper (distance node (base_station cfg) * 0.8) 2) as Hup.
  simpl in Hup. lra.
Qed.

Lemma stored_distance_sofar_witness :
  valid (demo_config 4 Acoustic false true) /\
  exists r g',
    @app demo_gen (demo_config 4 Acoustic false true) [] = Ok (r, g') /\
    length (results (comm r)) = length (nodes r) /\
    forall i node,
      nodes r !! i = Some node ->
      exists rec,
        results (comm r) !! i = Some rec /\
        rec_distance rec =
          py_round
            (distance node (base_station (demo_config 4 Acoustic false true))
             * 0.8) 2 /\
        (rec_distance rec <
         distance node (base_station (demo_config 4 Acoustic false true)))%R.
Proof.
  assert (Hvalid : valid (demo_config 4 Acoustic false true))
    by (unfold valid; simpl; lia).
  split; [exact Hvalid|].
  exact (@stored_distance_sofar demo_gen (demo_config 4 Acoustic false true)
           [] Hvalid eq_refl eq_refl).
Defined.

(** ** Acoustic energy and delay (C4) *)

(** C4, at the demonstration run with ACOUSTIC transport and the SOFAR
    box ticked: for the first node (0.8 x distance) / 1500 is
    0.57382503..., the delay stored in its record is 0.573825, and the
    energy stored is 129.111 where 0.12 x distance is 129.1106.... *)
Lemma acoustic_record_counterexample :
  exists r g' rec,
    @app demo_gen (demo_config 4 Acoustic false true) [] = Ok (r, g') /\
    nodes r !! 0%nat = Some (1002, 1018)%Z /\
    results (comm r) !! 0%nat = Some rec /\
    let d :=
      distance (1002, 1018)%Z
        (base_station (demo_config 4 Acoustic false true)) in
    rec_delay rec = 0.573825%R /\
    rec_delay rec <> (0.8 * d / 1500)%R /\
    rec_energy rec = 129.111%R /\
    rec_energy rec <> (0.12 * d)%R.
Proof.
  destruct (demo_run Acoustic true []) as (r & g' & Hrun & Hnodes & Hcomm).
  exists r, g'. rewrite Hrun, Hnodes, Hcomm. simpl foldl.
  rewrite !comm_step_fields. simpl results.
  eexists. split; [reflexivity|]. split; [reflexivity|].
  split; [reflexivity|].
  change (base_station (demo_config 4 Acoustic false true)) with (600, 20)%Z.
  unfold link_record, rec_delay, rec_energy. simpl.
  pose proof demo_distance_0 as Hd.
  pose proof (distance_sqr (1002, 1018)%Z (600, 20)%Z) as Hsq.
  change (IZR _) with (IZR 1157608) in Hsq.
  set (d := distance (1002, 1018)%Z (600, 20)%Z) in *.
  assert (Hdelay : py_round (d * 0.8 / 1500) 6 = 0.573825%R).
  { rewrite (py_round_near _ 573825); simpl; lra. }
  assert (Henergy : py_round (d * 0.12) 3 = 129.111%R).
  { rewrite (py_round_near _ 129111); simpl; lra. }
  rewrite Hdelay, Henergy.
  split; [reflexivity|]. split; [|split; [reflexivity|lra]].
  intros Heq.
  assert (Hd' : d = 1075.921875%R) by lra.
  rewrite Hd' in Hsq. lra.
Qed.

(** C4 (amended): under ACOUSTIC transport the energy computed for a node
    is 0.12 times its distance to the base station whether or not the
    SOFAR box is ticked, and the delay is (0.8 x distance) / 1500 with
    SOFAR and distance / 1500 without; the node's record stores the
    energy rounded to three decimals and the delay rounded to six. *)
Theorem acoustic_energy_delay {gen : BitGenerator} (cfg : Config)
    (g : rng_state) :
  valid cfg ->
  network_type cfg = Acoustic ->
  exists r g',
    app cfg g = Ok (r, g') /\
    forall i node,
      nodes r !! i = Some node ->
      let d := distance node (base_station cfg) in
      let energy :=
        link_energy Acoustic (enable_sofar cfg) (base_station cfg) node in
      let delay :=
        link_delay Acoustic (enable_sofar cfg) (base_station cfg) node in
      energy = (d * 0.12)%R /\
      delay = (if sofar_checkbox cfg then d * 0.8 / 1500 else d / 1500)%R /\
      exists rec,
        results (comm r) !! i = Some rec /\
        rec_energy rec = py_round energy 3 /\
        rec_delay rec = py_round delay 6.
Proof.
  intros [Hn Harea] Hnt.
  destruct (app_spec cfg g) as (centers & cl & tour & Hrun & _); [lia|lia|].
  eexists _, _. split; [exact Hrun|]. simpl.
  destruct (comm_loop_spec (network_type cfg) (enable_sofar cfg)
              (base_station cfg) (generated cfg).1 comm_init)
    as (Hres & _).
  rewrite Hres. simpl.
  intros i node Hi. rewrite list_lookup_fmap, Hi. simpl.
  unfold link_energy, link_delay, link_record, enable_sofar.
  rewrite Hnt. simpl.
  split; [reflexivity|].
  split; [now destruct (sofar_checkbox cfg)|].
  eexists. split; [reflexivity|]. split; reflexivity.
Qed.

Lemma acoustic_energy_delay_witness :
  valid (demo_config 4 Acoustic false true) /\
  exists r g',
    @app demo_gen (demo_config 4 Acoustic false true) [] = Ok (r, g') /\
    forall i node,
      nodes r !! i = Some node ->
      let cfg := demo_config 4 Acoustic false true in
      let d := distance node (base_station cfg) in
      let energy :=
        link_energy Acoustic (enable_sofar cfg) (base_station cfg) node in
      let delay :=
        link_delay Acoustic (enable_sofar cfg) (base_station cfg) node in
      energy = (d * 0.12)%R /\
      delay = (if sofar_checkbox cfg then d * 0.8 / 1500 else d / 1500)%R /\
      exists rec,
        results (comm r) !! i = Some rec /\
        rec_energy rec = py_round energy 3 /\
        rec_delay rec = py_round delay 6.
Proof.
  assert (Hvalid : valid (demo_config 4 Acoustic false true))
    by (unfold valid; simpl; lia).
  split; [exact Hvalid|].
  exact (@acoustic_energy_delay demo_gen (demo_config 4 Acoustic false true)
           [] Hvalid eq_refl).
Defined.

(** ** Aggregates (C5) *)

(** C5, at the demonstration run with RF transport: the four stored
    delays are 0.000004, 0.000003, 0.000003 and 0.000004 and add up to
    0.000014, whereas the accumulated total is below 0.000013 and is
    reported as 0.000013. *)
Lemma total_delay_counterexample :
  exists r g',
    @app demo_gen (demo_config 4 RF_Telemetry false false) [] = Ok (r, g') /\
    rec_delay <$> results (comm r)
      = [0.000004; 0.000003; 0.000003; 0.000004]%R /\
    Rsum (rec_delay <$> results (comm r)) = 0.000014%R /\
    (total_delay (comm r) < 0.000013)%R /\
    reported_total_delay r = 0.000013%R /\
    total_delay (comm r) <> Rsum (rec_delay <$> results (comm r)) /\
    reported_total_delay r <> Rsum (rec_delay <$> results (comm r)).
Proof.
  destruct (demo_run RF_Telemetry false []) as (r & g' & Hrun & Hnodes & Hcomm).
  exists r, g'. split; [exact Hrun|].
  unfold reported_total_delay. rewrite Hcomm. simpl foldl.
  rewrite !comm_step_fields. simpl results. simpl total_delay.
  unfold link_record, link_delay, rec_delay. simpl.
  pose proof demo_distance_0 as Hd0. pose proof demo_distance_1 as Hd1.
  pose proof demo_distance_2 as Hd2. pose proof demo_distance_3 as Hd3.
  set (d0 := distance (1002, 1018)%Z (600, 20)%Z) in *.
  set (d1 := distance (306, 839)%Z (600, 20)%Z) in *.
  set (d2 := distance (1071, 709)%Z (600, 20)%Z) in *.
  set (d3 := distance (925, 1067)%Z (600, 20)%Z) in *.
  assert (H0 : py_round (d0 / 3e8) 6 = 0.000004%R).
  { rewrite (py_round_near _ 4); simpl; lra. }
  assert (H1 : py_round (d1 / 3e8) 6 = 0.000003%R).
  { rewrite (py_round_near _ 3); simpl; lra. }
  assert (H2 : py_round (d2 / 3e8) 6 = 0.000003%R).
  { rewrite (py_round_near _ 3); simpl; lra. }
  assert (H3 : py_round (d3 / 3e8) 6 = 0.000004%R).
  { rewrite (py_round_near _ 4); simpl; lra. }
  assert (Htot : py_round (0 + d0 / 3e8 + d1 / 3e8 + d2 / 3e8 + d3 / 3e8) 6
                 = 0.000013%R).
  { rewrite (py_round_near _ 13); simpl; lra. }
  rewrite H0, H1, H2, H3, Htot. unfold Rsum. simpl.
  repeat split; lra.
Qed.

(** ** Route (C6) *)

(** C6: for every valid configuration the run completes; its route
    starts at the base station, has node_count + 1 entries, lists every
    node exactly once after the start, and follows the greedy
    nearest-neighbour order with ties going to the first remaining
    node, which no other order of the nodes does. *)
Theorem route_greedy_tour {gen : BitGenerator} (cfg : Config)
    (g : rng_state) :
  valid cfg ->
  exists r g' tour,
    app cfg g = Ok (r, g') /\
    route r = base_station cfg :: tour /\
    length (route r) = (Z.to_nat (num_nodes cfg) + 1)%nat /\
    Permutation tour (nodes r) /\
    greedy_order (base_station cfg) (nodes r) tour /\
    forall tour',
      greedy_order (base_station cfg) (nodes r) tour' -> tour' = tour.
Proof.
  intros [Hn Harea].
  destruct (app_spec cfg g) as (centers & cl & tour & Hrun & Hgreedy & _);
    [lia|lia|].
  eexists _, _, tour. split; [exact Hrun|]. simpl.
  pose proof (greedy_order_perm _ _ _ Hgreedy) as Hperm.
  split; [reflexivity|].
  split; [|split; [now symmetry|split; [exact Hgreedy|]]].
  - rewrite <- (Permutation_length Hperm). unfold generated.
    rewrite draw_rows_length. lia.
  - intros tour' Hgreedy'. exact (greedy_order_unique _ _ _ _ Hgreedy' Hgreedy).
Qed.

Lemma route_greedy_tour_witness :
  valid (demo_config 4 Acoustic true true) /\
  exists r g' tour,
    @app demo_gen (demo_config 4 Acoustic true true) [] = Ok (r, g') /\
    route r = base_station (demo_config 4 Acoustic true true) :: tour /\
    length (route r) = 5%nat /\
    Permutation tour (nodes r) /\
    greedy_order (base_station (demo_config 4 Acoustic true true))
                 (nodes r) tour /\
    forall tour',
      greedy_order (base_station (demo_config 4 Acoustic true true))
                   (nodes r) tour' -> tour' = tour.
Proof.
  assert (Hvalid : valid (demo_config 4 Acoustic true true))
    by (unfold valid; simpl; lia).
  split; [exact Hvalid|].
  exact (@route_greedy_tour demo_gen (demo_config 4 Acoustic true true)
           [] Hvalid).
Defined.

(** ** Clusters (C7) *)

(** C7: for every valid configuration with clustering enabled the run
    completes; the centers are the first k nodes in generation order;
    the member lists of the k clusters, put together, are a
    rearrangement of the node list (nothing lost, nothing duplicated);
    every node lies in the list of exactly one cluster, and the center
    of that cluster is its nearest center, lowest index on ties. *)
Theorem clusters_partition {gen : BitGenerator} (cfg : Config)
    (g : rng_state) :
  valid cfg ->
  enable_cluster cfg = true ->
  exists r g',
    app cfg g = Ok (r, g') /\
    let k := Z.to_nat (Z.max 2 (num_nodes cfg / 4)) in
    (forall c, is_Some (clusters r !! c) <-> (c < k)%nat) /\
    cluster_centers r = take k (nodes r) /\
    Permutation (concat ((fun c => clusters r !!! c) <$> seq 0 k)) (nodes r) /\
    forall p,
      p ∈ nodes r ->
      exists c,
        (c < k)%nat /\
        p ∈ clusters r !!! c /\
        nearest_center_of (cluster_centers r) p c /\
        forall c', p ∈ clusters r !!! c' -> c' = c.
Proof.
  intros [Hn Harea] Hcluster.
  destruct (app_spec cfg g) as (centers & cl & tour & Hrun & _ & Hcl);
    [lia|lia|].
  rewrite Hcluster in Hcl.
  destruct (clustering_spec (num_nodes cfg) (generated cfg).1)
    as (cl' & Hcl' & Hlookup).
  rewrite Hcl in Hcl'. injection Hcl' as -> <-.
  eexists _, _. split; [exact Hrun|]. simpl.
  set (k := Z.to_nat (Z.max 2 (num_nodes cfg / 4))) in *.
  set (ns := (generated cfg).1) in *.
  set (f := nearest_center (take k ns)) in *.
  assert (Hne : forall p, p ∈ ns -> take k ns <> []).
  { intros p Hp Htake. assert (Hk : (2 <= k)%nat) by (unfold k; lia).
    destruct ns as [|q ns']; [inversion Hp|].
    destruct k as [|k']; [lia|]. discriminate. }
  assert (Hf : forall p, p ∈ ns -> (f p < k)%nat).
  { intros p Hp. pose proof (nearest_center_lt (take k ns) p (Hne p Hp)) as Hlt.
    rewrite length_take in Hlt. unfold f. lia. }
  assert (Htotal : forall c, (c < k)%nat ->
            cl !!! c = filter (fun q => f q = c) ns).
  { intros c Hc. apply lookup_total_correct. rewrite Hlookup.
    now rewrite decide_True by exact Hc. }
  split; [|split; [reflexivity|split]].
  - intros c. rewrite Hlookup. destruct (decide (c < k)%nat) as [Hc|Hc].
    + split; [intros _; exact Hc|eauto].
    + split; [intros [x Hx]; discriminate|intros Hc'; contradiction].
  - assert (Heq : (fun c => cl !!! c) <$> seq 0 k =
                  (fun c => filter (fun q => f q = c) ns) <$> seq 0 k).
    { apply list_fmap_ext. intros i c Hi. apply Htotal.
      apply list_elem_of_lookup_2, elem_of_seq in Hi. lia. }
    rewrite Heq. now apply buckets_partition.
  - intros p Hp. exists (f p). split; [now apply Hf|].
    split; [|split].
    + rewrite Htotal by now apply Hf.
      apply list_elem_of_filter. auto.
    + apply nearest_center_spec. now apply (Hne p).
    + intros c' Hin. destruct (decide (c' < k)%nat) as [Hc'|Hc'].
      * rewrite Htotal in Hin by exact Hc'.
        apply list_elem_of_filter in Hin as [Heq _]. now symmetry.
      * assert (Hnone : cl !!! c' = []).
        { rewrite lookup_total_alt, Hlookup.
          now rewrite decide_False by exact Hc'. }
        rewrite Hnone in Hin. inversion Hin.
Qed.

Lemma clusters_partition_witness :
  valid (demo_config 4 Acoustic true false) /\
  exists r g',
    @app demo_gen (demo_config 4 Acoustic true false) [] = Ok (r, g') /\
    (forall c, is_Some (clusters r !! c) <-> (c < 2)%nat) /\
    cluster_centers r = take 2 (nodes r) /\
    Permutation (concat ((fun c => clusters r !!! c) <$> seq 0 2)) (nodes r) /\
    forall p,
      p ∈ nodes r ->
      exists c,
        (c < 2)%nat /\
        p ∈ clusters r !!! c /\
        nearest_center_of (cluster_centers r) p c /\
        forall c', p ∈ clusters r !!! c' -> c' = c.
Proof.
  assert (Hvalid : valid (demo_config 4 Acoustic true false))
    by (unfold valid; simpl; lia).
  split; [exact Hvalid|].
  exact (@clusters_partition demo_gen (demo_config 4 Acoustic true false)
           [] Hvalid eq_refl).
Defined.

(** ** Node generation (C8) *)

(** C8: for every valid configuration, generation produces node_count
    points whose coordinates are integers in [50, area_size - 50), and
    the base station is (area_size / 2 rounded toward zero, 20), a
    function of area_size alone. *)
Theorem node_generation_range {gen : BitGenerator} (cfg : Config)
    (g : rng_state) :
  valid cfg ->
  exists r g',
    app cfg g = Ok (r, g') /\
    np_randint 50 (area_size cfg - 50) (num_nodes cfg) (seed_state 3)
      = Ok (nodes r, g') /\
    length (nodes r) = Z.to_nat (num_nodes cfg) /\
    Forall (fun p : Point =>
              (50 <= p.1 < area_size cfg - 50)%Z /\
              (50 <= p.2 < area_size cfg - 50)%Z) (nodes r) /\
    base_station cfg = ((area_size cfg ÷ 2)%Z, 20%Z) /\
    forall cfg', area_size cfg' = area_size cfg ->
                 base_station cfg' = base_station cfg.
Proof.
  intros [Hn Harea].
  destruct (app_spec cfg g) as (centers & cl & tour & Hrun & _); [lia|lia|].
  eexists _, _. split; [exact Hrun|]. simpl.
  split; [|split; [|split; [|split]]].
  - rewrite np_randint_ok by lia. unfold generated.
    now destruct (draw_rows _ _ _ _).
  - apply draw_rows_length.
  - apply draw_rows_range. lia.
  - unfold base_station. now rewrite Z.quot_div_nonneg by lia.
  - intros cfg' Heq. unfold base_station. now rewrite Heq.
Qed.

Lemma node_generation_range_witness :
  valid (demo_config 4 Cabled_Fiber false false) /\
  exists r g',
    @app demo_gen (demo_config 4 Cabled_Fiber false false) [] = Ok (r, g') /\
    @np_randint demo_gen 50 1150 4 demo_script = Ok (nodes r, g') /\
    length (nodes r) = 4%nat /\
    Forall (fun p : Point =>
              (50 <= p.1 < 1150)%Z /\ (50 <= p.2 < 1150)%Z) (nodes r) /\
    base_station (demo_config 4 Cabled_Fiber false false) = (600, 20)%Z /\
    forall cfg', area_size cfg' = 1200%Z ->
                 base_station cfg' =
                 base_station (demo_config 4 Cabled_Fiber false false).
Proof.
  assert (Hvalid : valid (demo_config 4 Cabled_Fiber false false))
    by (unfold valid; simpl; lia).
  split; [exact Hvalid|].
  exact (@node_generation_range demo_gen
           (demo_config 4 Cabled_Fiber false false) [] Hvalid).
Defined.

(** ** Determinism (C9) *)

(** C9: two runs whose configurations agree on node_count and area_size
    (the seed is the constant 3) produce the same node coordinates,
    whatever state the global generator was in before each run; and for
    one configuration the whole result is the same, also when the second
    run starts from the state the first one left behind. *)
Theorem runs_are_deterministic {gen : BitGenerator} (cfg cfg' : Config)
    (g g' : rng_state) :
  num_nodes cfg = num_nodes cfg' ->
  area_size cfg = area_size cfg' ->
  run_nodes cfg g = run_nodes cfg' g' /\
  app cfg g = app cfg g' /\
  forall r g1, app cfg g = Ok (r, g1) -> app cfg g1 = Ok (r, g1).
Proof.
  intros Hn Harea. split; [|split; [reflexivity|auto]].
  unfold run_nodes.
  destruct (decide (num_nodes cfg < 0 \/
                    (num_nodes cfg <> 0 /\ area_size cfg <= 100))%Z)
    as [Hbad|Hgood].
  - rewrite (app_raise cfg g Hbad).
    rewrite (app_raise cfg' g') by (rewrite <- Hn, <- Harea; exact Hbad).
    reflexivity.
  - destruct (app_spec cfg g) as (c1 & cl1 & t1 & Hrun1 & _); [lia|lia|].
    destruct (app_spec cfg' g') as (c2 & cl2 & t2 & Hrun2 & _); [lia|lia|].
    rewrite Hrun1, Hrun2. simpl. unfold generated.
    now rewrite Hn, Harea.
Qed.

Lemma runs_are_deterministic_witness :
  @run_nodes demo_gen (demo_config 4 Acoustic true true) []
    = @run_nodes demo_gen (demo_config 4 RF_Telemetry false false) [7%Z] /\
  @app demo_gen (demo_config 4 Acoustic true true) []
    = @app demo_gen (demo_config 4 Acoustic true true) [7%Z] /\
  forall r g1,
    @app demo_gen (demo_config 4 Acoustic true true) [] = Ok (r, g1) ->
    @app demo_gen (demo_config 4 Acoustic true true) g1 = Ok (r, g1).
Proof.
  exact (@runs_are_deterministic demo_gen
           (demo_config 4 Acoustic true true)
           (demo_config 4 RF_Telemetry false false) [] [7%Z]
           eq_refl eq_refl).
Defined.

(** ** The node array is not modified (C10) *)

(** C10: [build_route] works on a copy: the array it is given is still
    in the store, unchanged, when it returns; in the script the cost loop
    that follows therefore runs over the nodes in generation order, one
    record per node. *)
Theorem build_route_keeps_nodes {gen : BitGenerator} (cfg : Config)
    (g : rng_state) (h : gmap loc (list Point)) (l_nodes : loc)
    (start : Point) (ns : list Point) :
  h !! l_nodes = Some ns ->
  valid cfg ->
  (exists rt h',
     build_route l_nodes start h = Ok (rt, h') /\ h' !! l_nodes = Some ns) /\
  (exists r g',
     app cfg g = Ok (r, g') /\
     nodes r = (generated cfg).1 /\
     results (comm r) =
       link_record (network_type cfg) (enable_sofar cfg) (base_station cfg)
         <$> (generated cfg).1).
Proof.
  intros Hns [Hn Harea]. split.
  - destruct (build_route_spec h l_nodes start ns Hns)
      as (tour & h' & Hrun & _ & Hframe).
    exists (start :: tour), h'. split; [exact Hrun|].
    rewrite Hframe; [exact Hns|eauto].
  - destruct (app_spec cfg g) as (centers & cl & tour & Hrun & _); [lia|lia|].
    eexists _, _. split; [exact Hrun|]. simpl. split; [reflexivity|].
    now destruct (comm_loop_spec (network_type cfg) (enable_sofar cfg)
                    (base_station cfg) (generated cfg).1 comm_init)
      as (-> & _).
Qed.

Lemma build_route_keeps_nodes_witness :
  ({[ 5%nat := [(70, 80); (60, 90)]%Z ]} : gmap loc (list Point)) !! 5%nat
    = Some [(70, 80); (60, 90)]%Z /\
  valid (demo_config 4 Acoustic false false) /\
  (exists rt h',
     build_route 5%nat (600, 20)%Z {[ 5%nat := [(70, 80); (60, 90)]%Z ]}
       = Ok (rt, h') /\
     h' !! 5%nat = Some [(70, 80); (60, 90)]%Z) /\
  (exists r g',
     @app demo_gen (demo_config 4 Acoustic false false) [] = Ok (r, g') /\
     nodes r = (@generated demo_gen (demo_config 4 Acoustic false false)).1 /\
     results (comm r) =
       link_record Acoustic false (600, 20)%Z
         <$> (@generated demo_gen (demo_config 4 Acoustic false false)).1).
Proof.
  assert (Hvalid : valid (demo_config 4 Acoustic false false))
    by (unfold valid; simpl; lia).
  assert (Hstore :
    ({[ 5%nat := [(70, 80); (60, 90)]%Z ]} : gmap loc (list Point)) !! 5%nat
      = Some [(70, 80); (60, 90)]%Z) by reflexivity.
  split; [exact Hstore|]. split; [exact Hvalid|].
  exact (@build_route_keeps_nodes demo_gen
           (demo_config 4 Acoustic false false) []
           _ 5%nat (600, 20)%Z _ Hstore Hvalid).
Defined.

(** ** Number of clusters (C2) *)




(** ** Failures (C3) *)



(** ** Distance *)

Lemma distance_eq_0 (a b : Point) : distance a b = 0%R <-> a = b.
Proof.
  split.
  - intros Hz. unfold distance in Hz.
    pose proof (Rle_0_sqr (IZR a.1 - IZR b.1)) as Hx.
    pose proof (Rle_0_sqr (IZR a.2 - IZR b.2)) as Hy.
    unfold Rsqr in Hx, Hy.
    apply sqrt_eq_0 in Hz; [|lra].
    assert (H1 : ((IZR a.1 - IZR b.1) * (IZR a.1 - IZR b.1) = 0)%R) by lra.
    assert (H2 : ((IZR a.2 - IZR b.2) * (IZR a.2 - IZR b.2) = 0)%R) by lra.
    apply Rmult_integral in H1, H2.
    destruct a as [ax ay], b as [bx b_y]. simpl in *.
    f_equal; apply eq_IZR; lra.
  - intros ->. unfold distance.
    replace (_ + _)%R with 0%R by lra. apply sqrt_0.
Qed.

(** X1: [distance] is symmetric, never negative, and zero exactly between
    a point and itself. *)
Theorem distance_metric (a b : Point) :
  distance a b = distance b a /\
  (0 <= distance a b)%R /\
  (distance a b = 0%R <-> a = b).
Proof.
  split; [|split].
  - unfold distance. f_equal. lra.
  - apply sqrt_pos.
  - apply distance_eq_0.
Qed.

(** ** Sums *)

Lemma Rsum_fmap_zero {A : Type} (l : list A) :
  Rsum ((fun _ : A => 0%R) <$> l) = 0%R.
Proof.
  induction l as [|x l IH]; [reflexivity|].
  rewrite fmap_cons, Rsum_cons, IH. lra.
Qed.

Lemma Rsum_fmap_ext {A : Type} (f g : A -> R) (l : list A) :
  (forall x, x ∈ l -> f x = g x) -> Rsum (f <$> l) = Rsum (g <$> l).
Proof.
  induction l as [|x l IH]; intros Hfg; [reflexivity|].
  rewrite !fmap_cons, !Rsum_cons.
  rewrite IH by (intros z Hz; apply Hfg; now right).
  now rewrite (Hfg x) by left.
Qed.

Lemma Rsum_fmap_lt {A : Type} (f g : A -> R) (l : list A) :
  l <> [] ->
  (forall x, x ∈ l -> (f x < g x)%R) ->
  (Rsum (f <$> l) < Rsum (g <$> l))%R.
Proof.
  induction l as [|x l IH]; intros Hne Hfg; [congruence|].
  rewrite !fmap_cons, !Rsum_cons.
  pose proof (Hfg x (list_elem_of_here _ _)) as Hx.
  destruct l as [|y l].
  - unfold Rsum. simpl. lra.
  - assert (Hrest : (Rsum (f <$> y :: l) < Rsum (g <$> y :: l))%R).
    { apply IH; [discriminate|]. intros z Hz. apply Hfg. now right. }
    lra.
Qed.

Lemma Rsum_fmap_close {A : Type} (f g : A -> R) (e : R) (l : list A) :
  (forall x, x ∈ l -> (- e <= f x - g x <= e)%R) ->
  (- (INR (length l) * e) <= Rsum (f <$> l) - Rsum (g <$> l)
   <= INR (length l) * e)%R.
Proof.
  induction l as [|x l IH]; intros Hfg.
  - unfold Rsum. simpl. lra.
  - rewrite !fmap_cons, !Rsum_cons.
    change (length (x :: l)) with (S (length l)). rewrite S_INR.
    pose proof (Hfg x (list_elem_of_here _ _)) as Hx.
    assert (Hrest : (- (INR (length l) * e)
                     <= Rsum (f <$> l) - Rsum (g <$> l)
                     <= INR (length l) * e)%R).
    { apply IH. intros z Hz. apply Hfg. now right. }
    lra.
Qed.

(** ** The parts of a completed run *)

Section Parts.

Context {gen : BitGenerator}.

(** Everything a completed run holds, in terms of the drawn nodes. *)
Lemma app_summary (cfg : Config) (g : rng_state) :
  (0 <= num_nodes cfg)%Z ->
  (num_nodes cfg = 0 \/ 100 < area_size cfg)%Z ->
  exists r tour,
    app cfg g = Ok (r, (generated cfg).2) /\
    nodes r = (generated cfg).1 /\
    route r = base_station cfg :: tour /\
    greedy_order (base_station cfg) (generated cfg).1 tour /\
    (if enable_cluster cfg
     then clustering (num_nodes cfg) (generated cfg).1
          = Ok (cluster_centers r, clusters r)
     else cluster_centers r = [] /\ clusters r = ∅) /\
    results (comm r) =
      link_record (network_type cfg) (enable_sofar cfg) (base_station cfg)
        <$> (generated cfg).1 /\
    total_energy (comm r) =
      Rsum (link_energy (network_type cfg) (enable_sofar cfg)
              (base_station cfg) <$> (generated cfg).1) /\
    total_delay (comm r) =
      Rsum (link_delay (network_type cfg) (enable_sofar cfg)
              (base_station cfg) <$> (generated cfg).1) /\
    sync_overhead (comm r) =
      (IZR (num_nodes cfg) * sync_constant (network_type cfg))%R.
Proof.
  intros Hn Harea.
  destruct (app_spec cfg g Hn Harea) as (centers & cl & tour & Hrun & Hgr & Hcl).
  eexists _, tour. split; [exact Hrun|]. simpl.
  destruct (comm_loop_spec (network_type cfg) (enable_sofar cfg)
              (base_station cfg) (generated cfg).1 comm_init)
    as (Hres & Hen & Hde & Hsy).
  simpl in Hres, Hen, Hde, Hsy.
  assert (Hlen : INR (length (generated cfg).1) = IZR (num_nodes cfg)).
  { unfold generated. rewrite draw_rows_length, INR_IZR_INZ. f_equal. lia. }
  rewrite Hres, Hen, Hde, Hsy, Hlen, !Rplus_0_l.
  repeat split; auto.
Qed.

(** Drawn nodes lie at least 30 m from the base station. *)
Lemma generated_far (cfg : Config) (p : Point) :
  (100 < area_size cfg)%Z ->
  p ∈ (generated cfg).1 ->
  (50 <= p.1 < area_size cfg - 50)%Z /\
  (50 <= p.2 < area_size cfg - 50)%Z /\
  (30 <= distance p (base_station cfg))%R.
Proof.
  intros Harea Hp.
  pose proof (draw_rows_range 50 (area_size cfg - 50)
                (Z.to_nat (num_nodes cfg)) (seed_state 3)) as Hall.
  rewrite Forall_forall in Hall.
  destruct (Hall ltac:(lia) p Hp) as [Hx Hy].
  split; [exact Hx|]. split; [exact Hy|].
  apply distance_lower. simpl. lia.
Qed.

Lemma generated_nonempty (cfg : Config) :
  (1 <= num_nodes cfg)%Z -> (generated cfg).1 <> [].
Proof.
  intros Hn Hnil.
  pose proof (draw_rows_length 50 (area_size cfg - 50)
                (Z.to_nat (num_nodes cfg)) (seed_state 3)) as Hlen.
  fold (generated cfg) in Hlen. rewrite Hnil in Hlen. simpl in Hlen. lia.
Qed.

End Parts.

(** ** What the widgets do not influence *)

(** X2: the clustering box and the transport selection are independent:
    two valid runs on the same node_count and area_size have the same
    nodes and the same route whatever the other widgets say, the same
    clusters when the clustering box agrees, and the same records and
    totals when the transport and the effective SOFAR setting agree; so
    clustering changes no cost and the transport changes no cluster. *)
Theorem widgets_independent {gen : BitGenerator} (cfg cfg' : Config)
    (g g' : rng_state) :
  valid cfg ->
  num_nodes cfg' = num_nodes cfg ->
  area_size cfg' = area_size cfg ->
  exists r r' g1,
    app cfg g = Ok (r, g1) /\
    app cfg' g' = Ok (r', g1) /\
    nodes r' = nodes r /\
    route r' = route r /\
    (enable_cluster cfg' = enable_cluster cfg ->
     cluster_centers r' = cluster_centers r /\ clusters r' = clusters r) /\
    (network_type cfg' = network_type cfg ->
     enable_sofar cfg' = enable_sofar cfg ->
     comm r' = comm r).
Proof.
  intros [Hn Harea] Hn' Harea'.
  destruct (app_spec cfg g) as (c1 & cl1 & t1 & Hrun1 & Hg1 & Hcl1);
    [lia|lia|].
  destruct (app_spec cfg' g') as (c2 & cl2 & t2 & Hrun2 & Hg2 & Hcl2);
    [lia|lia|].
  assert (Hgen : generated cfg' = generated cfg)
    by (unfold generated; now rewrite Hn', Harea').
  assert (Hbase : base_station cfg' = base_station cfg)
    by (unfold base_station; now rewrite Harea').
  rewrite Hgen, Hbase in Hrun2, Hg2. rewrite Hgen, Hn' in Hcl2.
  assert (Ht : t2 = t1) by exact (greedy_order_unique _ _ _ _ Hg2 Hg1).
  subst t2.
  eexists _, _, _. split; [exact Hrun1|]. split; [exact Hrun2|]. simpl.
  split; [reflexivity|]. split; [reflexivity|]. split.
  - intros Hc. rewrite Hc in Hcl2. destruct (enable_cluster cfg).
    + rewrite Hcl1 in Hcl2. now injection Hcl2 as -> ->.
    + destruct Hcl1 as [-> ->], Hcl2 as [-> ->]. auto.
  - intros Hnt Hsofar. now rewrite Hnt, Hsofar.
Qed.

Lemma widgets_independent_witness :
  valid (demo_config 4 Acoustic true true) /\
  exists r r' g1,
    @app demo_gen (demo_config 4 Acoustic true true) [] = Ok (r, g1) /\
    @app demo_gen (demo_config 4 RF_Telemetry false true) [5%Z] = Ok (r', g1) /\
    nodes r' = nodes r /\
    route r' = route r /\
    (false = true ->
     cluster_centers r' = cluster_centers r /\ clusters r' = clusters r) /\
    (RF_Telemetry = Acoustic -> false = true -> comm r' = comm r).
Proof.
  assert (Hvalid : valid (demo_config 4 Acoustic true true))
    by (unfold valid; simpl; lia).
  split; [exact Hvalid|].
  exact (@widgets_independent demo_gen (demo_config 4 Acoustic true true)
           (demo_config 4 RF_Telemetry false true) [] [5%Z]
           Hvalid eq_refl eq_refl).
Defined.

(** ** Comparing the transports *)

(** X4: on the same nodes the three transports are strictly ordered:
    Cabled costs the least total energy, then RF, then Acoustic; RF has
    the smallest total delay, then Cabled, then Acoustic with SOFAR, then
    Acoustic without; and every one of these totals is positive. *)
Theorem transports_ordered {gen : BitGenerator} (cfg : Config)
    (g : rng_state) :
  valid cfg ->
  exists r_rf r_cab r_ac r_sofar g',
    app (with_network RF_Telemetry false cfg) g = Ok (r_rf, g') /\
    app (with_network Cabled_Fiber false cfg) g = Ok (r_cab, g') /\
    app (with_network Acoustic false cfg) g = Ok (r_ac, g') /\
    app (with_network Acoustic true cfg) g = Ok (r_sofar, g') /\
    (0 < total_energy (comm r_cab) < total_energy (comm r_rf))%R /\
    (total_energy (comm r_rf) < total_energy (comm r_ac))%R /\
    (0 < total_delay (comm r_rf) < total_delay (comm r_cab))%R /\
    (total_delay (comm r_cab) < total_delay (comm r_sofar)
     < total_delay (comm r_ac))%R.
Proof.
  intros [Hn Harea].
  destruct (app_summary (with_network RF_Telemetry false cfg) g)
    as (r1 & t1 & Hrun1 & _ & _ & _ & _ & _ & Hen1 & Hde1 & _);
    [simpl; lia|simpl; lia|].
  destruct (app_summary (with_network Cabled_Fiber false cfg) g)
    as (r2 & t2 & Hrun2 & _ & _ & _ & _ & _ & Hen2 & Hde2 & _);
    [simpl; lia|simpl; lia|].
  destruct (app_summary (with_network Acoustic false cfg) g)
    as (r3 & t3 & Hrun3 & _ & _ & _ & _ & _ & Hen3 & Hde3 & _);
    [simpl; lia|simpl; lia|].
  destruct (app_summary (with_network Acoustic true cfg) g)
    as (r4 & t4 & Hrun4 & _ & _ & _ & _ & _ & Hen4 & Hde4 & _);
    [simpl; lia|simpl; lia|].
  exists r1, r2, r3, r4, (generated cfg).2.
  split; [exact Hrun1|]. split; [exact Hrun2|].
  split; [exact Hrun3|]. split; [exact Hrun4|].
  rewrite Hen1, Hen2, Hen3, Hde1, Hde2, Hde3, Hde4.
  change (generated (with_network _ _ cfg)) with (generated cfg).
  change (base_station (with_network _ _ cfg)) with (base_station cfg).
  simpl network_type. simpl enable_sofar.
  pose proof (generated_nonempty cfg Hn) as Hne.
  assert (Hfar : forall p, p ∈ (generated cfg).1 ->
                   (30 <= distance p (base_station cfg))%R).
  { intros p Hp. now apply generated_far. }
  pose proof (Rsum_fmap_zero (generated cfg).1) as Hzero.
  repeat split.
  - rewrite <- Hzero. apply Rsum_fmap_lt; [exact Hne|].
    intros p Hp. specialize (Hfar p Hp). unfold link_energy. simpl. lra.
  - apply Rsum_fmap_lt; [exact Hne|].
    intros p Hp. specialize (Hfar p Hp). unfold link_energy. simpl. lra.
  - apply Rsum_fmap_lt; [exact Hne|].
    intros p Hp. specialize (Hfar p Hp). unfold link_energy. simpl. lra.
  - rewrite <- Hzero. apply Rsum_fmap_lt; [exact Hne|].
    intros p Hp. specialize (Hfar p Hp). unfold link_delay. simpl. lra.
  - apply Rsum_fmap_lt; [exact Hne|].
    intros p Hp. specialize (Hfar p Hp). unfold link_delay. simpl. lra.
  - apply Rsum_fmap_lt; [exact Hne|].
    intros p Hp. specialize (Hfar p Hp). unfold link_delay. simpl. lra.
  - apply Rsum_fmap_lt; [exact Hne|].
    intros p Hp. specialize (Hfar p Hp). unfold link_delay. simpl. lra.
Qed.

Lemma transports_ordered_witness :
  valid (demo_config 4 Acoustic true false) /\
  exists r_rf r_cab r_ac r_sofar g',
    @app demo_gen
      (with_network RF_Telemetry false (demo_config 4 Acoustic true false)) []
      = Ok (r_rf, g') /\
    @app demo_gen
      (with_network Cabled_Fiber false (demo_config 4 Acoustic true false)) []
      = Ok (r_cab, g') /\
    @app demo_gen
      (with_network Acoustic false (demo_config 4 Acoustic true false)) []
      = Ok (r_ac, g') /\
    @app demo_gen
      (with_network Acoustic true (demo_config 4 Acoustic true false)) []
      = Ok (r_sofar, g') /\
    (0 < total_energy (comm r_cab) < total_energy (comm r_rf))%R /\
    (total_energy (comm r_rf) < total_energy (comm r_ac))%R /\
    (0 < total_delay (comm r_rf) < total_delay (comm r_cab))%R /\
    (total_delay (comm r_cab) < total_delay (comm r_sofar)
     < total_delay (comm r_ac))%R.
Proof.
  assert (Hvalid : valid (demo_config 4 Acoustic true false))
    by (unfold valid; simpl; lia).
  split; [exact Hvalid|].
  exact (@transports_ordered demo_gen (demo_config 4 Acoustic true false)
           [] Hvalid).
Defined.

(** ** Accuracy of the records *)

Lemma round_half_even_lower (y : R) : (y - 1 / 2 <= IZR (round_half_even y))%R.
Proof.
  unfold round_half_even. pose proof (Zfloor_bound y) as [Hlo Hhi].
  destruct (Rlt_dec _ _) as [H1|H1]; [lra|].
  destruct (Rlt_dec _ _) as [H2|H2]; [rewrite plus_IZR; lra|].
  destruct (Z.even _); [lra|rewrite plus_IZR; lra].
Qed.

Lemma py_round_lower (x : R) (n : nat) :
  (x - 1 / 2 / 10 ^ n <= py_round x n)%R.
Proof.
  unfold py_round. pose proof (pow10_pos n) as Hp.
  pose proof (round_half_even_lower (x * 10 ^ n)) as Hr.
  replace (x - 1 / 2 / 10 ^ n)%R with ((x * 10 ^ n - 1 / 2) / 10 ^ n)%R
    by (field; lra).
  apply Rmult_le_compat_r; [|exact Hr].
  left. now apply Rinv_0_lt_compat.
Qed.

Lemma Rsum_fmap_const {A : Type} (c : R) (l : list A) :
  Rsum ((fun _ : A => c) <$> l) = (INR (length l) * c)%R.
Proof.
  induction l as [|x l IH]; [unfold Rsum; simpl; lra|].
  rewrite fmap_cons, Rsum_cons, IH.
  change (length (x :: l)) with (S (length l)). rewrite S_INR. lra.
Qed.

(** C5 (amended): total_delay and total_energy are the sums, in node
    order, of the unrounded delay and energy computed for each node, not
    of the rounded copies stored in the records; the stored delays add up
    to within node_count x 0.000001 of total_delay and the stored
    energies to within node_count x 0.001 of total_energy; the totals
    are reported rounded, within 0.000001 and 0.001 of their values; the
    synchronisation overhead is the sum of node_count copies of the fixed
    per-transport constant and is reported as node_count times that
    constant, rounded to six decimals. *)
Theorem aggregates_are_sums {gen : BitGenerator} (cfg : Config)
    (g : rng_state) :
  valid cfg ->
  exists r g',
    app cfg g = Ok (r, g') /\
    let nt := network_type cfg in
    let delay := link_delay nt (enable_sofar cfg) (base_station cfg) in
    let energy := link_energy nt (enable_sofar cfg) (base_station cfg) in
    length (nodes r) = Z.to_nat (num_nodes cfg) /\
    total_delay (comm r) = Rsum (delay <$> nodes r) /\
    total_energy (comm r) = Rsum (energy <$> nodes r) /\
    sync_overhead (comm r)
      = Rsum ((fun _ : Point => sync_constant nt) <$> nodes r) /\
    (- (IZR (num_nodes cfg) * 0.000001)
     <= Rsum (rec_delay <$> results (comm r)) - total_delay (comm r)
     <= IZR (num_nodes cfg) * 0.000001)%R /\
    (- (IZR (num_nodes cfg) * 0.001)
     <= Rsum (rec_energy <$> results (comm r)) - total_energy (comm r)
     <= IZR (num_nodes cfg) * 0.001)%R /\
    (- 0.000001 <= reported_total_delay r - total_delay (comm r)
     <= 0.000001)%R /\
    (- 0.001 <= reported_total_energy r - total_energy (comm r)
     <= 0.001)%R /\
    reported_sync_overhead r
      = py_round (IZR (num_nodes cfg) * sync_constant nt) 6.
Proof.
  intros [Hn Harea].
  destruct (app_summary cfg g)
    as (r & t & Hrun & Hnodes & _ & _ & _ & Hres & Hen & Hde & Hsy);
    [lia|lia|].
  exists r, (generated cfg).2. split; [exact Hrun|]. cbv zeta.
  unfold reported_total_delay, reported_total_energy, reported_sync_overhead.
  rewrite Hnodes, Hres, Hsy.
  set (nt := network_type cfg) in *. set (sofar := enable_sofar cfg) in *.
  set (base := base_station cfg) in *. set (ns := (generated cfg).1) in *.
  assert (Hlen : length ns = Z.to_nat (num_nodes cfg))
    by apply draw_rows_length.
  assert (Hlen' : INR (length ns) = IZR (num_nodes cfg)).
  { rewrite Hlen, INR_IZR_INZ. f_equal. lia. }
  assert (Hd : forall p,
    (- (0.000001) <= rec_delay (link_record nt sofar base p)
                     - link_delay nt sofar base p <= 0.000001)%R).
  { intros p. unfold link_record, link_delay, rec_delay.
    destruct (transport nt sofar (distance p base)) as [[[speed en] sy] d].
    simpl.
    pose proof (py_round_lower (d / speed) 6) as Hl.
    pose proof (py_round_upper (d / speed) 6) as Hu.
    simpl in Hl, Hu. lra. }
  assert (He : forall p,
    (- (0.001) <= rec_energy (link_record nt sofar base p)
                  - link_energy nt sofar base p <= 0.001)%R).
  { intros p. unfold link_record, link_energy, rec_energy.
    destruct (transport nt sofar (distance p base)) as [[[speed en] sy] d].
    simpl.
    pose proof (py_round_lower en 3) as Hl.
    pose proof (py_round_upper en 3) as Hu.
    simpl in Hl, Hu. lra. }
  pose proof (py_round_lower (total_delay (comm r)) 6) as Hl6.
  pose proof (py_round_upper (total_delay (comm r)) 6) as Hu6.
  pose proof (py_round_lower (total_energy (comm r)) 3) as Hl3.
  pose proof (py_round_upper (total_energy (comm r)) 3) as Hu3.
  simpl in Hl6, Hu6, Hl3, Hu3.
  split; [exact Hlen|]. split; [exact Hde|]. split; [exact Hen|].
  split; [now rewrite Rsum_fmap_const, Hlen'|].
  split; [|split; [|split; [lra|split; [lra|reflexivity]]]].
  - rewrite Hde, <- list_fmap_compose, <- Hlen'.
    pose proof (Rsum_fmap_close (rec_delay ∘ link_record nt sofar base)
                  (link_delay nt sofar base) 0.000001 ns) as Hclose.
    simpl in Hclose. apply Hclose. intros p _. apply Hd.
  - rewrite Hen, <- list_fmap_compose, <- Hlen'.
    pose proof (Rsum_fmap_close (rec_energy ∘ link_record nt sofar base)
                  (link_energy nt sofar base) 0.001 ns) as Hclose.
    simpl in Hclose. apply Hclose. intros p _. apply He.
Qed.

Lemma aggregates_are_sums_witness :
  valid (demo_config 4 RF_Telemetry false false) /\
  exists r g',
    @app demo_gen (demo_config 4 RF_Telemetry false false) [] = Ok (r, g') /\
    let cfg := demo_config 4 RF_Telemetry false false in
    let nt := network_type cfg in
    let delay := link_delay nt (enable_sofar cfg) (base_station cfg) in
    let energy := link_energy nt (enable_sofar cfg) (base_station cfg) in
    length (nodes r) = Z.to_nat (num_nodes cfg) /\
    total_delay (comm r) = Rsum (delay <$> nodes r) /\
    total_energy (comm r) = Rsum (energy <$> nodes r) /\
    sync_overhead (comm r)
      = Rsum ((fun _ : Point => sync_constant nt) <$> nodes r) /\
    (- (IZR (num_nodes cfg) * 0.000001)
     <= Rsum (rec_delay <$> results (comm r)) - total_delay (comm r)
     <= IZR (num_nodes cfg) * 0.000001)%R /\
    (- (IZR (num_nodes cfg) * 0.001)
     <= Rsum (rec_energy <$> results (comm r)) - total_energy (comm r)
     <= IZR (num_nodes cfg) * 0.001)%R /\
    (- 0.000001 <= reported_total_delay r - total_delay (comm r)
     <= 0.000001)%R /\
    (- 0.001 <= reported_total_energy r - total_energy (comm r)
     <= 0.001)%R /\
    reported_sync_overhead r
      = py_round (IZR (num_nodes cfg) * sync_constant nt) 6.
Proof.
  assert (Hvalid : valid (demo_config 4 RF_Telemetry false false))
    by (unfold valid; simpl; lia).
  split; [exact Hvalid|].
  exact (@aggregates_are_sums demo_gen
           (demo_config 4 RF_Telemetry false false) [] Hvalid).
Defined.

(** X5: in a valid run every stored value is within one unit of its
    last stored decimal place of the value computed for its node: the
    stored distance within 0.01 of the (SOFAR-adjusted) distance, the
    stored delay within 0.000001 of the delay and the stored energy
    within 0.001 of the energy. *)
Theorem records_accurate {gen : BitGenerator} (cfg : Config)
    (g : rng_state) :
  valid cfg ->
  exists r g',
    app cfg g = Ok (r, g') /\
    forall i node rec,
      nodes r !! i = Some node ->
      results (comm r) !! i = Some rec ->
      let nt := network_type cfg in
      let d := distance node (base_station cfg) in
      let d_eff := (if enable_sofar cfg then d * 0.8 else d)%R in
      let delay := link_delay nt (enable_sofar cfg) (base_station cfg) node in
      let energy :=
        link_energy nt (enable_sofar cfg) (base_station cfg) node in
      (- 0.01 <= rec_distance rec - d_eff <= 0.01)%R /\
      (- 0.000001 <= rec_delay rec - delay <= 0.000001)%R /\
      (- 0.001 <= rec_energy rec - energy <= 0.001)%R.
Proof.
  intros [Hn Harea].
  destruct (app_summary cfg g)
    as (r & t & Hrun & Hnodes & _ & _ & _ & Hres & _); [lia|lia|].
  exists r, (generated cfg).2. split; [exact Hrun|].
  rewrite Hnodes, Hres.
  intros i node rec Hi Hrec. rewrite list_lookup_fmap, Hi in Hrec.
  injection Hrec as <-. cbv zeta.
  unfold link_record, link_delay, link_energy, rec_distance, rec_delay,
    rec_energy, enable_sofar.
  set (d := distance node (base_station cfg)).
  assert (Hround : forall x n,
    (x - 1 / 2 / 10 ^ n <= py_round x n <= x + 1 / 2 / 10 ^ n)%R).
  { intros x n. split; [apply py_round_lower|apply py_round_upper]. }
  destruct (network_type cfg); [| |destruct (sofar_checkbox cfg)]; simpl.
  - pose proof (Hround d 2) as H2. pose proof (Hround (d / 3e8)%R 6) as H6.
    pose proof (Hround (d * 0.06)%R 3) as H3. simpl in H2, H6, H3.
    repeat split; lra.
  - pose proof (Hround d 2) as H2. pose proof (Hround (d / 2e8)%R 6) as H6.
    pose proof (Hround (d * 0.015)%R 3) as H3. simpl in H2, H6, H3.
    repeat split; lra.
  - pose proof (Hround (d * 0.8)%R 2) as H2.
    pose proof (Hround (d * 0.8 / 1500)%R 6) as H6.
    pose proof (Hround (d * 0.12)%R 3) as H3. simpl in H2, H6, H3.
    repeat split; lra.
  - pose proof (Hround d 2) as H2. pose proof (Hround (d / 1500)%R 6) as H6.
    pose proof (Hround (d * 0.12)%R 3) as H3. simpl in H2, H6, H3.
    repeat split; lra.
Qed.

Lemma records_accurate_witness :
  valid (demo_config 4 Cabled_Fiber false false) /\
  exists r g',
    @app demo_gen (demo_config 4 Cabled_Fiber false false) [] = Ok (r, g') /\
    forall i node rec,
      nodes r !! i = Some node ->
      results (comm r) !! i = Some rec ->
      let cfg := demo_config 4 Cabled_Fiber false false in
      let nt := network_type cfg in
      let d := distance node (base_station cfg) in
      let d_eff := (if enable_sofar cfg then d * 0.8 else d)%R in
      let delay := link_delay nt (enable_sofar cfg) (base_station cfg) node in
      let energy :=
        link_energy nt (enable_sofar cfg) (base_station cfg) node in
      (- 0.01 <= rec_distance rec - d_eff <= 0.01)%R /\
      (- 0.000001 <= rec_delay rec - delay <= 0.000001)%R /\
      (- 0.001 <= rec_energy rec - energy <= 0.001)%R.
Proof.
  assert (Hvalid : valid (demo_config 4 Cabled_Fiber false false))
    by (unfold valid; simpl; lia).
  split; [exact Hvalid|].
  exact (@records_accurate demo_gen (demo_config 4 Cabled_Fiber false false)
           [] Hvalid).
Defined.

(** ** Geometry of the plot *)

(** X6: in a valid run every point that is plotted (nodes, base station,
    route) lies within the axes, which run from 0 to area_size; and every
    node lies above the base station, at least 30 m from it, so no node
    coincides with the base station. *)
Theorem plot_within_axes {gen : BitGenerator} (cfg : Config)
    (g : rng_state) :
  valid cfg ->
  exists r g',
    app cfg g = Ok (r, g') /\
    (forall p, p ∈ plotted_points cfg r -> within_axes cfg p) /\
    (forall p, p ∈ nodes r ->
       ((base_station cfg).2 < p.2)%Z /\
       (30 <= distance p (base_station cfg))%R /\
       p <> base_station cfg).
Proof.
  intros [Hn Harea].
  destruct (app_summary cfg g)
    as (r & t & Hrun & Hnodes & Hroute & Hgreedy & _); [lia|lia|].
  exists r, (generated cfg).2. split; [exact Hrun|].
  assert (Hnode : forall p, p ∈ (generated cfg).1 -> within_axes cfg p).
  { intros p Hp. destruct (generated_far cfg p Harea Hp) as (Hx & Hy & _).
    unfold within_axes. lia. }
  assert (Hbase : within_axes cfg (base_station cfg)).
  { unfold within_axes, base_station. simpl.
    pose proof (Z.div_pos (area_size cfg) 2).
    pose proof (Z.div_le_upper_bound (area_size cfg) 2 (area_size cfg)).
    lia. }
  split.
  - intros p Hp. unfold plotted_points in Hp.
    rewrite Hnodes, Hroute in Hp.
    apply elem_of_app in Hp as [Hp|Hp]; [now apply Hnode|].
    apply elem_of_app in Hp as [Hp|Hp].
    + apply list_elem_of_singleton in Hp as ->. exact Hbase.
    + apply elem_of_cons in Hp as [->|Hp]; [exact Hbase|].
      apply Hnode. apply greedy_order_perm in Hgreedy.
      now rewrite Hgreedy.
  - intros p Hp. rewrite Hnodes in Hp.
    destruct (generated_far cfg p Harea Hp) as (Hx & Hy & Hd).
    split; [simpl; lia|]. split; [exact Hd|].
    intros ->. simpl in Hy. lia.
Qed.

Lemma plot_within_axes_witness :
  valid (demo_config 4 Cabled_Fiber true false) /\
  exists r g',
    @app demo_gen (demo_config 4 Cabled_Fiber true false) [] = Ok (r, g') /\
    (forall p, p ∈ plotted_points (demo_config 4 Cabled_Fiber true false) r ->
               within_axes (demo_config 4 Cabled_Fiber true false) p) /\
    (forall p, p ∈ nodes r ->
       (20 < p.2)%Z /\
       (30 <= distance p (600, 20)%Z)%R /\
       p <> (600, 20)%Z).
Proof.
  assert (Hvalid : valid (demo_config 4 Cabled_Fiber true false))
    by (unfold valid; simpl; lia).
  split; [exact Hvalid|].
  exact (@plot_within_axes demo_gen (demo_config 4 Cabled_Fiber true false)
           [] Hvalid).
Defined.

(** ** Shape of the route *)

Lemma greedy_order_hops cur rem tour :
  greedy_order cur rem tour -> hop_minimal (cur :: tour).
Proof.
  induction 1 as [|cur l1 p l2 tour Hlt Hle Hrec IH]; [exact I|].
  split; [|exact IH].
  intros q Hq. apply greedy_order_perm in Hrec. rewrite <- Hrec in Hq.
  apply elem_of_app in Hq as [Hq|Hq]; [left; now apply Hlt|now apply Hle].
Qed.

(** X7: in a valid run every hop of the route goes to a node at least as
    close to the current position as every node visited later; in
    particular the first stop is a node nearest to the base station, and
    the route is never the bare start. *)
Theorem route_hops_minimal {gen : BitGenerator} (cfg : Config)
    (g : rng_state) :
  valid cfg ->
  exists r g' first rest,
    app cfg g = Ok (r, g') /\
    hop_minimal (route r) /\
    route r = base_station cfg :: first :: rest /\
    first ∈ nodes r /\
    forall q, q ∈ nodes r ->
      (distance (base_station cfg) first <= distance (base_station cfg) q)%R.
Proof.
  intros [Hn Harea].
  destruct (app_summary cfg g)
    as (r & t & Hrun & Hnodes & Hroute & Hgreedy & _); [lia|lia|].
  pose proof (greedy_order_perm _ _ _ Hgreedy) as Hperm.
  pose proof (greedy_order_hops _ _ _ Hgreedy) as Hhops.
  destruct t as [|first rest].
  { apply Permutation_nil_r in Hperm.
    now apply generated_nonempty in Hperm. }
  exists r, (generated cfg).2, first, rest.
  split; [exact Hrun|]. rewrite Hroute, Hnodes.
  split; [exact Hhops|]. split; [reflexivity|]. split.
  - rewrite Hperm. left.
  - intros q Hq. rewrite Hperm in Hq.
    apply elem_of_cons in Hq as [->|Hq]; [lra|].
    destruct Hhops as [Hmin _]. now apply Hmin.
Qed.

Lemma route_hops_minimal_witness :
  valid (demo_config 4 Acoustic false false) /\
  exists r g' first rest,
    @app demo_gen (demo_config 4 Acoustic false false) [] = Ok (r, g') /\
    hop_minimal (route r) /\
    route r = (600, 20)%Z :: first :: rest /\
    first ∈ nodes r /\
    forall q, q ∈ nodes r ->
      (distance (600, 20)%Z first <= distance (600, 20)%Z q)%R.
Proof.
  assert (Hvalid : valid (demo_config 4 Acoustic false false))
    by (unfold valid; simpl; lia).
  split; [exact Hvalid|].
  exact (@route_hops_minimal demo_gen (demo_config 4 Acoustic false false)
           [] Hvalid).
Defined.

(** ** Shape of the clusters *)

Section ClusterShape.

Context {gen : BitGenerator}.

(** A completed run with clustering enabled: the centers are the first k
    nodes and cluster [c] holds the nodes assigned to [c]. *)
Lemma app_clusters (cfg : Config) (g : rng_state) :
  (0 <= num_nodes cfg)%Z ->
  (num_nodes cfg = 0 \/ 100 < area_size cfg)%Z ->
  enable_cluster cfg = true ->
  exists r,
    app cfg g = Ok (r, (generated cfg).2) /\
    nodes r = (generated cfg).1 /\
    let k := Z.to_nat (Z.max 2 (num_nodes cfg / 4)) in
    cluster_centers r = take k (nodes r) /\
    forall c,
      clusters r !! c =
      if decide (c < k)%nat
      then Some (filter (fun p => nearest_center (cluster_centers r) p = c)
                        (nodes r))
      else None.
Proof.
  intros Hn Harea Hcluster.
  destruct (app_summary cfg g Hn Harea)
    as (r & t & Hrun & Hnodes & _ & _ & Hcl & _).
  rewrite Hcluster in Hcl.
  destruct (clustering_spec (num_nodes cfg) (generated cfg).1)
    as (cl & Hcl' & Hlookup).
  rewrite Hcl in Hcl'. injection Hcl' as Hc Hm.
  exists r. split; [exact Hrun|]. split; [exact Hnodes|]. cbv zeta.
  rewrite Hnodes, Hc. split; [reflexivity|]. intros c.
  rewrite Hm. apply Hlookup.
Qed.

(** A center that differs from every earlier center is its own nearest
    center. *)
Lemma nearest_center_self (centers : list Point) (i : nat) (p : Point) :
  centers !! i = Some p ->
  (forall j q, (j < i)%nat -> centers !! j = Some q -> q <> p) ->
  nearest_center centers p = i.
Proof.
  intros Hi Hdistinct.
  assert (Hne : centers <> []) by (intros ->; discriminate).
  destruct (nearest_center_spec centers p Hne) as (c & Hc & Hmin & Hfst).
  set (n := nearest_center centers p) in *.
  assert (Hpp : distance p p = 0%R) by now apply distance_eq_0.
  pose proof (sqrt_pos ((IZR p.1 - IZR c.1) * (IZR p.1 - IZR c.1)
                        + (IZR p.2 - IZR c.2) * (IZR p.2 - IZR c.2))) as Hpos.
  fold (distance p c) in Hpos.
  pose proof (Hmin i p Hi) as Hle.
  assert (Hcp : c = p) by (symmetry; apply distance_eq_0; lra).
  subst c.
  destruct (lt_eq_lt_dec n i) as [[Hlt|Heq]|Hgt]; [|exact Heq|].
  - exfalso. exact (Hdistinct n p Hlt Hc eq_refl).
  - specialize (Hfst i p Hgt Hi). lra.
Qed.

End ClusterShape.

(** X8: with clustering enabled in a valid run, the first generated node
    is the center of cluster 0 and the first member of cluster 0, so
    cluster 0 is never empty; and every center that differs from all
    earlier centers is a member of its own cluster. *)
Theorem centers_in_own_cluster {gen : BitGenerator} (cfg : Config)
    (g : rng_state) :
  valid cfg ->
  enable_cluster cfg = true ->
  exists r g' first,
    app cfg g = Ok (r, g') /\
    head (nodes r) = Some first /\
    cluster_centers r !! 0%nat = Some first /\
    head (clusters r !!! 0%nat) = Some first /\
    forall i p,
      cluster_centers r !! i = Some p ->
      (forall j q, (j < i)%nat -> cluster_centers r !! j = Some q -> q <> p) ->
      p ∈ clusters r !!! i.
Proof.
  intros [Hn Harea] Hcluster.
  destruct (app_clusters cfg g) as (r & Hrun & Hnodes & Hcenters & Hlookup);
    [lia|lia|exact Hcluster|].
  cbv zeta in Hcenters, Hlookup.
  set (k := Z.to_nat (Z.max 2 (num_nodes cfg / 4))) in *.
  assert (Hk : (2 <= k)%nat) by (unfold k; lia).
  pose proof (generated_nonempty cfg Hn) as Hne. rewrite <- Hnodes in Hne.
  destruct (nodes r) as [|first rest] eqn:Hns; [congruence|].
  assert (Hc0 : cluster_centers r !! 0%nat = Some first).
  { rewrite Hcenters. destruct k as [|k']; [lia|reflexivity]. }
  exists r, (generated cfg).2, first.
  split; [exact Hrun|]. rewrite Hns.
  split; [reflexivity|]. split; [exact Hc0|]. split.
  - pose proof (Hlookup 0%nat) as H0.
    rewrite decide_True in H0 by lia.
    rewrite (lookup_total_correct _ _ _ H0).
    rewrite filter_cons_True; [reflexivity|].
    apply nearest_center_self; [exact Hc0|]. intros j q Hj. lia.
  - intros i p Hi Hdistinct.
    assert (Hlt : (i < k)%nat).
    { apply lookup_lt_Some in Hi. rewrite Hcenters, length_take in Hi. lia. }
    pose proof (Hlookup i) as Hci.
    rewrite decide_True in Hci by exact Hlt.
    rewrite (lookup_total_correct _ _ _ Hci).
    apply list_elem_of_filter. split.
    + now apply nearest_center_self.
    + apply (subseteq_take k). rewrite <- Hcenters.
      apply list_elem_of_lookup. eauto.
Qed.

Lemma centers_in_own_cluster_witness :
  valid (demo_config 4 Acoustic true false) /\
  exists r g' first,
    @app demo_gen (demo_config 4 Acoustic true false) [] = Ok (r, g') /\
    head (nodes r) = Some first /\
    cluster_centers r !! 0%nat = Some first /\
    head (clusters r !!! 0%nat) = Some first /\
    forall i p,
      cluster_centers r !! i = Some p ->
      (forall j q, (j < i)%nat -> cluster_centers r !! j = Some q -> q <> p) ->
      p ∈ clusters r !!! i.
Proof.
  assert (Hvalid : valid (demo_config 4 Acoustic true false))
    by (unfold valid; simpl; lia).
  split; [exact Hvalid|].
  exact (@centers_in_own_cluster demo_gen (demo_config 4 Acoustic true false)
           [] Hvalid eq_refl).
Defined.

(** X9: with clustering enabled in a valid run, the centers are the first
    k nodes and the member list of every cluster is the node list
    filtered by "the index [np.argmin] computes for the node is this
    cluster's": a sublist of the node list, so the members stay in
    generation order. *)
Theorem members_in_generation_order {gen : BitGenerator} (cfg : Config)
    (g : rng_state) :
  valid cfg ->
  enable_cluster cfg = true ->
  exists r g',
    app cfg g = Ok (r, g') /\
    let k := Z.to_nat (Z.max 2 (num_nodes cfg / 4)) in
    cluster_centers r = take k (nodes r) /\
    forall c,
      (c < k)%nat ->
      clusters r !!! c
        = filter (fun p => nearest_center (cluster_centers r) p = c)
                 (nodes r) /\
      clusters r !!! c `sublist_of` nodes r.
Proof.
  intros [Hn Harea] Hcluster.
  destruct (app_clusters cfg g) as (r & Hrun & Hnodes & Hcenters & Hlookup);
    [lia|lia|exact Hcluster|].
  cbv zeta in Hcenters, Hlookup.
  exists r, (generated cfg).2. split; [exact Hrun|]. cbv zeta.
  split; [exact Hcenters|]. intros c Hc.
  assert (Heq : clusters r !!! c
                = filter (fun p => nearest_center (cluster_centers r) p = c)
                         (nodes r)).
  { apply lookup_total_correct. rewrite Hlookup.
    now rewrite decide_True by exact Hc. }
  split; [exact Heq|]. rewrite Heq. apply sublist_filter.
Qed.

Lemma members_in_generation_order_witness :
  valid (demo_config 4 Acoustic true false) /\
  exists r g',
    @app demo_gen (demo_config 4 Acoustic true false) [] = Ok (r, g') /\
    cluster_centers r = take 2 (nodes r) /\
    forall c,
      (c < 2)%nat ->
      clusters r !!! c
        = filter (fun p => nearest_center (cluster_centers r) p = c)
                 (nodes r) /\
      clusters r !!! c `sublist_of` nodes r.
Proof.
  assert (Hvalid : valid (demo_config 4 Acoustic true false))
    by (unfold valid; simpl; lia).
  split; [exact Hvalid|].
  exact (@members_in_generation_order demo_gen
           (demo_config 4 Acoustic true false) [] Hvalid eq_refl).
Defined.

(** ** The cluster part of the plot *)

Lemma cluster_edges_spec (centers : list Point) :
  forall (i : nat) (cl : gmap nat (list Point)),
    (forall j, (j < length centers)%nat -> is_Some (cl !! (i + j)%nat)) ->
    exists edges,
      cluster_edges i centers cl = Ok edges /\
      edges.*2 = concat ((fun j => cl !!! j) <$> seq i (length centers)) /\
      forall c p, (c, p) ∈ edges ->
        exists j, centers !! j = Some c /\ p ∈ cl !!! (i + j)%nat.
Proof.
  induction centers as [|c rest IH]; intros i cl Hdom.
  - exists []. repeat split. intros c p Hin. inversion Hin.
  - destruct (Hdom 0%nat ltac:(simpl; lia)) as [ms Hms].
    rewrite Nat.add_0_r in Hms.
    destruct (IH (S i) cl) as (edges & Hrun & Hsnd & Hin).
    { intros j Hj. replace (S i + j)%nat with (i + S j)%nat by lia.
      apply Hdom. simpl. lia. }
    exists (((fun n => (c, n)) <$> ms) ++ edges).
    simpl. rewrite Hms, Hrun. simpl. split; [reflexivity|]. split.
    + rewrite fmap_app, Hsnd, <- list_fmap_compose.
      rewrite (lookup_total_correct _ _ _ Hms). f_equal.
      now rewrite list_fmap_id.
    + intros c' p Hp. apply elem_of_app in Hp as [Hp|Hp].
      * apply list_elem_of_fmap in Hp as (n & Heq & Hn).
        injection Heq as -> ->. exists 0%nat.
        rewrite Nat.add_0_r, (lookup_total_correct _ _ _ Hms). auto.
      * destruct (Hin c' p Hp) as (j & Hj & Hpj). exists (S j).
        replace (i + S j)%nat with (S i + j)%nat by lia. auto.
Qed.

(** X11: with clustering enabled in a valid run the cluster drawing loop
    never raises; it draws exactly one segment per node, from the node to
    its nearest center (lowest index on ties) among the first k nodes. *)
Theorem plot_edges_per_node {gen : BitGenerator} (cfg : Config)
    (g : rng_state) :
  valid cfg ->
  enable_cluster cfg = true ->
  exists r g' edges,
    app cfg g = Ok (r, g') /\
    cluster_centers r
      = take (Z.to_nat (Z.max 2 (num_nodes cfg / 4))) (nodes r) /\
    cluster_edges 0 (cluster_centers r) (clusters r) = Ok edges /\
    length edges = Z.to_nat (num_nodes cfg) /\
    Permutation (edges.*2) (nodes r) /\
    forall c p, (c, p) ∈ edges ->
      exists j, cluster_centers r !! j = Some c /\
                nearest_center_of (cluster_centers r) p j.
Proof.
  intros [Hn Harea] Hcluster.
  destruct (app_clusters cfg g) as (r & Hrun & Hnodes & Hcenters & Hlookup);
    [lia|lia|exact Hcluster|].
  cbv zeta in Hcenters, Hlookup.
  set (k := Z.to_nat (Z.max 2 (num_nodes cfg / 4))) in *.
  set (centers := cluster_centers r) in *.
  set (f := nearest_center centers) in *.
  assert (Hm : (length centers <= k)%nat).
  { rewrite Hcenters, length_take. lia. }
  assert (Htotal : forall c, (c < k)%nat ->
            clusters r !!! c = filter (fun q => f q = c) (nodes r)).
  { intros c Hc. apply lookup_total_correct. rewrite Hlookup.
    now rewrite decide_True by exact Hc. }
  assert (Hcne : forall p, p ∈ nodes r -> centers <> []).
  { intros p Hp. rewrite Hcenters.
    destruct (nodes r) as [|q ns]; [inversion Hp|].
    assert (Hk : (2 <= k)%nat) by (unfold k; lia).
    destruct k as [|k']; [lia|discriminate]. }
  destruct (cluster_edges_spec centers 0%nat (clusters r))
    as (edges & Hedges & Hsnd & Hin).
  { intros j Hj. rewrite Hlookup. rewrite decide_True by (simpl; lia). eauto. }
  assert (Hperm : Permutation (edges.*2) (nodes r)).
  { rewrite Hsnd.
    assert (Heq : (fun j => clusters r !!! j) <$> seq 0 (length centers) =
                  (fun j => filter (fun q => f q = j) (nodes r))
                    <$> seq 0 (length centers)).
    { apply list_fmap_ext. intros i c Hi. apply Htotal.
      apply list_elem_of_lookup_2, elem_of_seq in Hi. lia. }
    rewrite Heq. apply buckets_partition.
    intros p Hp. apply nearest_center_lt. now apply (Hcne p). }
  exists r, (generated cfg).2, edges.
  split; [exact Hrun|]. split; [exact Hcenters|].
  split; [exact Hedges|]. split; [|split].
  - rewrite <- (length_fmap snd), (Permutation_length Hperm), Hnodes.
    apply draw_rows_length.
  - exact Hperm.
  - intros c p Hp. destruct (Hin c p Hp) as (j & Hj & Hpj).
    exists j. split; [exact Hj|]. simpl in Hpj.
    assert (Hjk : (j < k)%nat) by (apply lookup_lt_Some in Hj; lia).
    rewrite Htotal in Hpj by exact Hjk.
    apply list_elem_of_filter in Hpj as [Hf Hpn]. rewrite <- Hf.
    apply nearest_center_spec. now apply (Hcne p).
Qed.

Lemma plot_edges_per_node_witness :
  valid (demo_config 4 RF_Telemetry true false) /\
  exists r g' edges,
    @app demo_gen (demo_config 4 RF_Telemetry true false) [] = Ok (r, g') /\
    cluster_centers r = take 2 (nodes r) /\
    cluster_edges 0 (cluster_centers r) (clusters r) = Ok edges /\
    length edges = 4%nat /\
    Permutation (edges.*2) (nodes r) /\
    forall c p, (c, p) ∈ edges ->
      exists j, cluster_centers r !! j = Some c /\
                nearest_center_of (cluster_centers r) p j.
Proof.
  assert (Hvalid : valid (demo_config 4 RF_Telemetry true false))
    by (unfold valid; simpl; lia).
  split; [exact Hvalid|].
  exact (@plot_edges_per_node demo_gen (demo_config 4 RF_Telemetry true false)
           [] Hvalid eq_refl).
Defined.

(** ** Farther nodes cost more *)

Lemma round_half_even_mono (x y : R) :
  (x <= y)%R -> (round_half_even x <= round_half_even y)%Z.
Proof.
  intros Hxy. pose proof (Zfloor_le x y Hxy) as Hfl.
  pose proof (round_half_even_lower y) as Hly.
  pose proof (round_half_even_upper x) as Hux.
  pose proof (Zfloor_bound x) as [Hx1 Hx2].
  pose proof (Zfloor_bound y) as [Hy1 Hy2].
  destruct (decide (Zfloor x = Zfloor y)) as [Heq|Hneq].
  - unfold round_half_even. rewrite <- Heq.
    destruct (Rlt_dec (x - IZR (Zfloor x)) (1 / 2)) as [H1|H1].
    + destruct (Rlt_dec (y - IZR (Zfloor x)) (1 / 2)); [lia|].
      destruct (Rlt_dec (1 / 2) (y - IZR (Zfloor x))); [lia|].
      destruct (Z.even (Zfloor x)); lia.
    + destruct (Rlt_dec (1 / 2) (x - IZR (Zfloor x))) as [H2|H2].
      * destruct (Rlt_dec (y - IZR (Zfloor x)) (1 / 2)); [lra|].
        destruct (Rlt_dec (1 / 2) (y - IZR (Zfloor x))); [lia|lra].
      * destruct (Rlt_dec (y - IZR (Zfloor x)) (1 / 2)); [lra|].
        destruct (Rlt_dec (1 / 2) (y - IZR (Zfloor x))); [|lia].
        destruct (Z.even (Zfloor x)); lia.
  - assert (Hlt : (Zfloor x + 1 <= Zfloor y)%Z) by lia.
    assert (Hrx : (round_half_even x <= Zfloor x + 1)%Z).
    { unfold round_half_even.
      destruct (Rlt_dec _ _); [lia|]. destruct (Rlt_dec _ _); [lia|].
      destruct (Z.even _); lia. }
    assert (Hry : (Zfloor y <= round_half_even y)%Z).
    { unfold round_half_even.
      destruct (Rlt_dec _ _); [lia|]. destruct (Rlt_dec _ _); [lia|].
      destruct (Z.even _); lia. }
    lia.
Qed.

Lemma py_round_mono (x y : R) (n : nat) :
  (x <= y)%R -> (py_round x n <= py_round y n)%R.
Proof.
  intros Hxy. unfold py_round. pose proof (pow10_pos n) as Hp.
  apply Rmult_le_compat_r; [left; now apply Rinv_0_lt_compat|].
  apply IZR_le, round_half_even_mono.
  apply Rmult_le_compat_r; lra.
Qed.

(** X13: in a valid run, of two nodes the one that is not nearer to the
    base station has no smaller stored distance, stored delay or stored
    energy, whatever the transport and the SOFAR setting. *)
Theorem records_monotone {gen : BitGenerator} (cfg : Config)
    (g : rng_state) :
  valid cfg ->
  exists r g',
    app cfg g = Ok (r, g') /\
    forall i j p q ri rj,
      nodes r !! i = Some p ->
      nodes r !! j = Some q ->
      results (comm r) !! i = Some ri ->
      results (comm r) !! j = Some rj ->
      (distance p (base_station cfg) <= distance q (base_station cfg))%R ->
      (rec_distance ri <= rec_distance rj)%R /\
      (rec_delay ri <= rec_delay rj)%R /\
      (rec_energy ri <= rec_energy rj)%R.
Proof.
  intros [Hn Harea].
  destruct (app_summary cfg g)
    as (r & t & Hrun & Hnodes & _ & _ & _ & Hres & _); [lia|lia|].
  exists r, (generated cfg).2. split; [exact Hrun|].
  rewrite Hnodes, Hres.
  intros i j p q ri rj Hp Hq Hri Hrj Hd.
  rewrite list_lookup_fmap, Hp in Hri. rewrite list_lookup_fmap, Hq in Hrj.
  injection Hri as <-. injection Hrj as <-.
  unfold link_record, rec_distance, rec_delay, rec_energy.
  destruct (network_type cfg), (enable_sofar cfg); simpl;
    repeat split; apply py_round_mono; lra.
Qed.

Lemma records_monotone_witness :
  valid (demo_config 4 Acoustic false true) /\
  exists r g',
    @app demo_gen (demo_config 4 Acoustic false true) [] = Ok (r, g') /\
    forall i j p q ri rj,
      nodes r !! i = Some p ->
      nodes r !! j = Some q ->
      results (comm r) !! i = Some ri ->
      results (comm r) !! j = Some rj ->
      (distance p (600, 20)%Z <= distance q (600, 20)%Z)%R ->
      (rec_distance ri <= rec_distance rj)%R /\
      (rec_delay ri <= rec_delay rj)%R /\
      (rec_energy ri <= rec_energy rj)%R.
Proof.
  assert (Hvalid : valid (demo_config 4 Acoustic false true))
    by (unfold valid; simpl; lia).
  split; [exact Hvalid|].
  exact (@records_monotone demo_gen (demo_config 4 Acoustic false true)
           [] Hvalid).
Defined.

(** ** The SOFAR box *)

(** X3: under Acoustic, ticking the SOFAR box leaves the total energy,
    the stored energies and the synchronisation overhead unchanged,
    strictly lowers the total delay, and makes no stored delay and no
    stored distance larger; under the two other transports the box
    (which is then not even shown) changes nothing at all. *)
Theorem sofar_effect {gen : BitGenerator} (cfg : Config) (g : rng_state) :
  valid cfg ->
  (exists r_on r_off g',
     app (with_network Acoustic true cfg) g = Ok (r_on, g') /\
     app (with_network Acoustic false cfg) g = Ok (r_off, g') /\
     total_energy (comm r_on) = total_energy (comm r_off) /\
     sync_overhead (comm r_on) = sync_overhead (comm r_off) /\
     rec_energy <$> results (comm r_on)
       = rec_energy <$> results (comm r_off) /\
     (total_delay (comm r_on) < total_delay (comm r_off))%R /\
     forall i rec_on rec_off,
       results (comm r_on) !! i = Some rec_on ->
       results (comm r_off) !! i = Some rec_off ->
       (rec_delay rec_on <= rec_delay rec_off)%R /\
       (rec_distance rec_on <= rec_distance rec_off)%R) /\
  app (with_network RF_Telemetry true cfg) g
    = app (with_network RF_Telemetry false cfg) g /\
  app (with_network Cabled_Fiber true cfg) g
    = app (with_network Cabled_Fiber false cfg) g.
Proof.
  intros [Hn Harea]. split; [|split; reflexivity].
  destruct (app_summary (with_network Acoustic true cfg) g)
    as (r1 & t1 & Hrun1 & _ & _ & _ & _ & Hres1 & Hen1 & Hde1 & Hsy1);
    [simpl; lia|simpl; lia|].
  destruct (app_summary (with_network Acoustic false cfg) g)
    as (r2 & t2 & Hrun2 & _ & _ & _ & _ & Hres2 & Hen2 & Hde2 & Hsy2);
    [simpl; lia|simpl; lia|].
  exists r1, r2, (generated cfg).2.
  split; [exact Hrun1|]. split; [exact Hrun2|].
  rewrite Hde1, Hde2, Hen1, Hen2, Hsy1, Hsy2, Hres1, Hres2.
  change (generated (with_network Acoustic true cfg)) with (generated cfg).
  change (generated (with_network Acoustic false cfg)) with (generated cfg).
  change (base_station (with_network Acoustic true cfg))
    with (base_station cfg).
  change (base_station (with_network Acoustic false cfg))
    with (base_station cfg).
  simpl network_type. simpl enable_sofar.
  split; [reflexivity|]. split; [reflexivity|]. split; [|split].
  - rewrite <- !list_fmap_compose. apply list_fmap_ext. intros i p _.
    reflexivity.
  - apply Rsum_fmap_lt; [now apply generated_nonempty|].
    intros p Hp. destruct (generated_far cfg p Harea Hp) as (_ & _ & Hd).
    unfold link_delay. simpl. lra.
  - intros i rec_on rec_off Hon Hoff.
    rewrite list_lookup_fmap in Hon, Hoff.
    destruct ((generated cfg).1 !! i) as [p|]; [|discriminate].
    simpl in Hon, Hoff. injection Hon as <-. injection Hoff as <-.
    pose proof (sqrt_pos ((IZR p.1 - IZR (base_station cfg).1)
                          * (IZR p.1 - IZR (base_station cfg).1)
                          + (IZR p.2 - IZR (base_station cfg).2)
                            * (IZR p.2 - IZR (base_station cfg).2))) as Hpos.
    fold (distance p (base_station cfg)) in Hpos.
    unfold link_record, rec_delay, rec_distance. simpl.
    split; apply py_round_mono; lra.
Qed.

Lemma sofar_effect_witness :
  valid (demo_config 4 RF_Telemetry false false) /\
  (exists r_on r_off g',
     @app demo_gen
       (with_network Acoustic true (demo_config 4 RF_Telemetry false false)) []
       = Ok (r_on, g') /\
     @app demo_gen
       (with_network Acoustic false (demo_config 4 RF_Telemetry false false)) []
       = Ok (r_off, g') /\
     total_energy (comm r_on) = total_energy (comm r_off) /\
     sync_overhead (comm r_on) = sync_overhead (comm r_off) /\
     rec_energy <$> results (comm r_on)
       = rec_energy <$> results (comm r_off) /\
     (total_delay (comm r_on) < total_delay (comm r_off))%R /\
     forall i rec_on rec_off,
       results (comm r_on) !! i = Some rec_on ->
       results (comm r_off) !! i = Some rec_off ->
       (rec_delay rec_on <= rec_delay rec_off)%R /\
       (rec_distance rec_on <= rec_distance rec_off)%R) /\
  @app demo_gen
    (with_network RF_Telemetry true (demo_config 4 RF_Telemetry false false)) []
  = @app demo_gen
      (with_network RF_Telemetry false (demo_config 4 RF_Telemetry false false))
      [] /\
  @app demo_gen
    (with_network Cabled_Fiber true (demo_config 4 RF_Telemetry false false)) []
  = @app demo_gen
      (with_network Cabled_Fiber false (demo_config 4 RF_Telemetry false false))
      [].
Proof.
  assert (Hvalid : valid (demo_config 4 RF_Telemetry false false))
    by (unfold valid; simpl; lia).
  split; [exact Hvalid|].
  exact (@sofar_effect demo_gen (demo_config 4 RF_Telemetry false false)
           [] Hvalid).
Defined.
